(** * ParPass ML API: the recommendation engine of [api.py]

    A shallow embedding of [get_recommendations] and [get_popular_courses]
    and the properties of the engine: scoring, tier gating, exclusion of
    played courses, the fallback for unknown members, and which lookups can
    raise.

    Conventions of the embedding.
    - Identifiers (member ids, course ids) are strings, so Python's [str(x)]
      is the identity on them.
    - Numbers are idealised: pandas' float64 similarities and scores are
      exact rationals ([Q]), the literal [0.3] is [3 # 10], play counts are
      integers ([Z]).  The program adds and rounds in binary floating point,
      so the last digit of a score can differ from the exact one; the
      theorems are about which courses are returned, in which order, with
      which reasons, and about which lookups raise, not about the digits of
      a score.
    - A raised exception is a value [Raise e] of the [result] type; a
      [return] is [Ok v]. *)

From Stdlib Require Import ZArith QArith Qround Lqa.
From stdpp Require Import base decidable option list strings gmap sorting.

Local Open Scope string_scope.
Local Open Scope list_scope.
Local Open Scope Z_scope.

(** ** Exceptions *)

Inductive exn : Type :=
  | KeyError (label : string)
  | IndexError.

Inductive result (A : Type) : Type :=
  | Ok (a : A)
  | Raise (e : exn).
Arguments Ok {A} a.
Arguments Raise {A} e.

#[global] Instance result_ret : MRet result := @Ok.
#[global] Instance result_bind : MBind result :=
  λ A B f r, match r with Ok a => f a | Raise e => Raise e end.

(** ** Python and pandas primitives *)

(** [str(x)] on a value that is already a string. *)
Definition str (s : string) : string := s.

(** [l[:n]]: the first [n] items, or all but the last [-n] when [n < 0]. *)
Definition slice_to {A} (l : list A) (n : Z) : list A :=
  if decide (0 ≤ n) then take (Z.to_nat n) l
  else take (length l - Z.to_nat (- n))%nat l.

(** [df.head(n)] on a table of rows: [df.iloc[:n]]. *)
Definition df_head {A} (df : list A) (n : Z) : list A := slice_to df n.

(** [df.iloc[0]]. *)
Definition iloc0 {A} (df : list A) : result A :=
  match df with
  | [] => Raise IndexError
  | row :: _ => Ok row
  end.

(** [x > y] on numbers. *)
Definition Qgtb (x y : Q) : bool := negb (Qle_bool x y).

(** Python's [round(x, ndigits)]: to the nearest multiple of [10^-ndigits],
    a tie going to the even neighbour. *)
Definition round_half_even (x : Q) : Z :=
  let f := Qfloor x in
  match (x - inject_Z f ?= 1 # 2)%Q with
  | Lt => f
  | Gt => f + 1
  | Eq => if Z.even f then f else f + 1
  end.

Definition round (x : Q) (ndigits : nat) : Q :=
  let p := Z.to_pos (10 ^ Z.of_nat ndigits) in
  Qred (round_half_even (x * inject_Z (Z.pos p)) # p).

(** A labelled one-dimensional array: labels with their values, in order. *)
Abbreviation Series V := (list (string * V)).

Definition series_index {V} (s : Series V) : list string := s.*1.

(** [s[label]] *)
Definition series_get {V} (s : Series V) (label : string) : result V :=
  match list_find (λ p, p.1 = label) s with
  | Some (_, p) => Ok p.2
  | None => Raise (KeyError label)
  end.

(** [s.drop(label)]: raises when no entry carries the label. *)
Definition drop {V} (s : Series V) (label : string) : result (Series V) :=
  if decide (label ∈ series_index s)
  then Ok (filter (λ p, p.1 ≠ label) s)
  else Raise (KeyError label).

(** A labelled table (a pivot): row labels, column labels, and the cell
    of each pair of labels.  Labels of an axis are pairwise distinct, so a
    label lookup yields one cell. *)
Record DataFrame (V : Type) : Type := {
  index : list string;
  columns : list string;
  values : string → string → V;
  index_unique : NoDup index;
  columns_unique : NoDup columns
}.
Arguments index {V} _.
Arguments columns {V} _.
Arguments values {V} _ _ _.

(** [df.loc[r]]: the row as a series over the column labels. *)
Definition loc_row {V} (df : DataFrame V) (r : string) : result (Series V) :=
  if decide (r ∈ index df)
  then Ok ((λ c, (c, values df r c)) <$> columns df)
  else Raise (KeyError r).

(** [df[c]]: the column as a series over the row labels. *)
Definition getitem {V} (df : DataFrame V) (c : string) : result (Series V) :=
  if decide (c ∈ columns df)
  then Ok ((λ r, (r, values df r c)) <$> index df)
  else Raise (KeyError c).

(** [df.loc[r, c]] *)
Definition loc {V} (df : DataFrame V) (r c : string) : result V :=
  if decide (r ∈ index df) then
    if decide (c ∈ columns df) then Ok (values df r c)
    else Raise (KeyError c)
  else Raise (KeyError r).

(** [d[k] = v] on a dict, which keeps insertion order. *)
Fixpoint dict_set {V} (d : list (string * V)) (k : string) (v : V)
  : list (string * V) :=
  match d with
  | [] => [(k, v)]
  | (k', v') :: d' =>
      if decide (k' = k) then (k, v) :: d' else (k', v') :: dict_set d' k v
  end.

(** [sorted(items, key=lambda x: x[1], reverse=True)]: descending by the
    second component, items of equal key staying in their order. *)
Fixpoint insert_desc (x : string * Q) (l : list (string * Q))
  : list (string * Q) :=
  match l with
  | [] => [x]
  | y :: l' => if Qgtb y.2 x.2 then y :: insert_desc x l' else x :: l
  end.

Fixpoint sorted_desc (l : list (string * Q)) : list (string * Q) :=
  match l with
  | [] => []
  | x :: l' => insert_desc x (sorted_desc l')
  end.

(** ** The model store *)

Module MemberRow.
Record t : Type := mk { member_id : string; tier : string }.
End MemberRow.

Module Course.
Record t : Type := mk {
  course_id : string;
  name : string;
  city : string;
  state : string;
  tier_required : string
}.
End Course.

Module Recommendation.
Record t : Type := mk {
  id : string;
  name : string;
  city : string;
  state : string;
  tier_required : string;
  score : Q;
  reason : string
}.
End Recommendation.

Record ModelData : Type := {
  member_course_matrix : DataFrame Z;
  member_similarity_df : DataFrame Q;
  members_df : list MemberRow.t;
  courses_df : list Course.t;
  member_names : gmap string string
}.

(** ** The engine *)

Section Engine.

(** The module-level [model_data], once loaded. *)
Variable model_data : ModelData.

(** [courses_df[courses_df['course_id'] == course_id]] *)
Definition courses_with_id (course_id : string) : list Course.t :=
  filter (λ c, Course.course_id c = course_id) (courses_df model_data).

(** [members_df[members_df['member_id'] == member_id]] *)
Definition members_with_id (member_id : string) : list MemberRow.t :=
  filter (λ m, MemberRow.member_id m = member_id) (members_df model_data).

(** Fallback for new members: the first [n] rows of the catalog. *)
Definition get_popular_courses (member_id : string) (n : Z)
  : list Recommendation.t :=
  (λ course,
     {| Recommendation.id := str (Course.course_id course);
        Recommendation.name := Course.name course;
        Recommendation.city := Course.city course;
        Recommendation.state := Course.state course;
        Recommendation.tier_required := Course.tier_required course;
        Recommendation.score := 0;
        Recommendation.reason := "Popular course" |})
  <$> df_head (courses_df model_data) n.

(** The inner loop of the scoring: [score += similarity * plays] over
    [similarities.index]. *)
Fixpoint score_loop (similarities : Series Q) (course_id : string)
    (others : list string) (score : Q) : result Q :=
  match others with
  | [] => Ok score
  | other_member_id :: others' =>
      similarity ← series_get similarities other_member_id;
      plays ← loc (member_course_matrix model_data) other_member_id course_id;
      score_loop similarities course_id others'
        (score + similarity * inject_Z plays)%Q
  end.

(** The loop over [member_course_matrix.columns] filling [course_scores]. *)
Fixpoint scores_loop (is_premium : bool) (played_courses : gset string)
    (similarities : Series Q) (cols : list string)
    (course_scores : list (string * Q)) : result (list (string * Q)) :=
  match cols with
  | [] => Ok course_scores
  | course_id :: cols' =>
      if decide (course_id ∈ played_courses) then
        scores_loop is_premium played_courses similarities cols' course_scores
      else
        match courses_with_id course_id with
        | [] =>
            scores_loop is_premium played_courses similarities cols'
              course_scores
        | course_row :: _ =>
            let course_tier := Course.tier_required course_row in
            if bool_decide (course_tier = "premium") && negb is_premium then
              scores_loop is_premium played_courses similarities cols'
                course_scores
            else
              score ← score_loop similarities course_id
                        (series_index similarities) 0%Q;
              scores_loop is_premium played_courses similarities cols'
                (dict_set course_scores course_id score)
        end
  end.

(** The loop collecting [similar_members] for one course. *)
Fixpoint names_loop (similarities : Series Q) (course_id : string)
    (others : list string) (similar_members : list string)
  : result (list string) :=
  match others with
  | [] => Ok similar_members
  | other_id :: others' =>
      plays ← loc (member_course_matrix model_data) other_id course_id;
      if bool_decide (0 < plays) then
        similarity ← series_get similarities other_id;
        if Qgtb similarity (3 # 10) then
          let name := default "Member" (member_names model_data !! str other_id) in
          names_loop similarities course_id others' (similar_members ++ [name])
        else names_loop similarities course_id others' similar_members
      else names_loop similarities course_id others' similar_members
  end.

(** The f-string of the explanation. *)
Definition reason_text (similar_members : list string) : string :=
  match similar_members with
  | [] => "Recommended for you"
  | _ => "Played by: " ++ String.concat ", " (slice_to similar_members 2)
  end.

(** The loop over [sorted_courses] building [results]. *)
Fixpoint results_loop (similarities : Series Q)
    (sorted_courses : list (string * Q)) (results : list Recommendation.t)
  : result (list Recommendation.t) :=
  match sorted_courses with
  | [] => Ok results
  | (course_id, score) :: rest =>
      course_info ← iloc0 (courses_with_id course_id);
      similar_members ← names_loop similarities course_id
                          (series_index similarities) [];
      let reason := reason_text similar_members in
      results_loop similarities rest
        (results ++
         [{| Recommendation.id := str course_id;
             Recommendation.name := Course.name course_info;
             Recommendation.city := Course.city course_info;
             Recommendation.state := Course.state course_info;
             Recommendation.tier_required := Course.tier_required course_info;
             Recommendation.score := round score 2;
             Recommendation.reason := reason |}])
  end.

(** Collaborative filtering recommendation engine. *)
Definition get_recommendations (member_id : string) (n_recommendations : Z)
  : result (list Recommendation.t) :=
  let member_id := str member_id in
  let member_course_matrix := member_course_matrix model_data in
  let member_similarity_df := member_similarity_df model_data in
  if decide (member_id ∉ index member_course_matrix) then
    Ok (get_popular_courses member_id n_recommendations)
  else
    match members_with_id member_id with
    | [] => Ok []
    | member_row :: _ =>
        let member_tier := MemberRow.tier member_row in
        let is_premium := bool_decide (member_tier = "premium") in
        row ← loc_row member_course_matrix member_id;
        let played_courses : gset string :=
          list_to_set (series_index (filter (λ p, 0 < p.2) row)) in
        column ← getitem member_similarity_df member_id;
        similarities ← drop column member_id;
        course_scores ← scores_loop is_premium played_courses similarities
                          (columns member_course_matrix) [];
        let sorted_courses :=
          slice_to (sorted_desc course_scores) n_recommendations in
        results_loop similarities sorted_courses []
    end.

End Engine.

(** A table from its labels and cells, the distinctness of the labels being
    checked by computation. *)
Definition frame {V} (idx cols : list string) (cells : string → string → V)
    (Hidx : bool_decide (NoDup idx) = true)
    (Hcols : bool_decide (NoDup cols) = true) : DataFrame V :=
  {| index := idx; columns := cols; values := cells;
     index_unique := bool_decide_eq_true_1 _ Hidx;
     columns_unique := bool_decide_eq_true_1 _ Hcols |}.

(** ** What the specification calls things *)

Section Vocabulary.

Variable model_data : ModelData.

(** "All other members": the members of the similarity matrix but the
    member itself, in the order of its rows. *)
Definition other_members (member : string) : list string :=
  filter (λ o, o ≠ member) (index (member_similarity_df model_data)).

(** similarity(member, other): the cell of the member's column at the
    other member's row. *)
Definition similarity (member other : string) : Q :=
  values (member_similarity_df model_data) other member.

(** interaction_count(member, course) *)
Definition interaction_count (member course : string) : Z :=
  values (member_course_matrix model_data) member course.

Definition Qsum (l : list Q) : Q := foldr Qplus 0%Q l.

(** Σ over all other members of similarity × interaction count. *)
Definition weighted_sum (member course : string) : Q :=
  Qsum ((λ other, similarity member other
                  * inject_Z (interaction_count other course))%Q
        <$> other_members member).

(** The member's similarity vector against all other members. *)
Definition similarity_vector (member : string) : Series Q :=
  filter (λ p, p.1 ≠ member)
    ((λ r, (r, values (member_similarity_df model_data) r member))
     <$> index (member_similarity_df model_data)).

(** The display name of a member, with its generic default. *)
Definition display_name (member : string) : string :=
  default "Member" (member_names model_data !! member).

(** Another member backs a course for the member when it played the course
    and is more than 0.3 similar. *)
Definition backs (member course other : string) : Prop :=
  0 < interaction_count other course ∧ (3 # 10 < similarity member other)%Q.

#[global] Instance backs_dec member course other :
  Decision (backs member course other).
Proof.
  unfold backs.
  destruct (Qlt_le_dec (3 # 10) (similarity member other)) as [Hlt|Hle].
  - destruct (decide (0 < interaction_count other course)); [left|right]; tauto.
  - right. intros [_ Hlt]. exact (Qlt_not_le _ _ Hlt Hle).
Defined.

(** The explanation as the specification words it. *)
Definition expected_reason (member course : string) : string :=
  match display_name <$> filter (backs member course) (other_members member) with
  | [] => "Recommended for you"
  | names => "Played by: " ++ String.concat ", " (take 2 names)
  end.

(** The first row of the course table for a course id, if any. *)
Definition course_metadata (course : string) : option Course.t :=
  head (courses_with_id model_data course).

(** The first row of the member table for a member id, if any. *)
Definition member_metadata (member : string) : option MemberRow.t :=
  head (members_with_id model_data member).

(** The record of a selected course. *)
Definition recommendation_of (member : string) (info : Course.t)
    (course : string) (score : Q) : Recommendation.t :=
  {| Recommendation.id := course;
     Recommendation.name := Course.name info;
     Recommendation.city := Course.city info;
     Recommendation.state := Course.state info;
     Recommendation.tier_required := Course.tier_required info;
     Recommendation.score := score;
     Recommendation.reason := expected_reason member course |}.

(** The score of a course, as the inner loop accumulates it. *)
Definition running_score (member course : string) (acc : Q)
    (others : list string) : Q :=
  foldl (λ a other, a + similarity member other
                        * inject_Z (interaction_count other course))%Q
        acc others.

(** The courses the member has already played. *)
Definition played_courses_of (member : string) : gset string :=
  list_to_set (series_index
    (filter (λ p, 0 < p.2)
       ((λ c, (c, values (member_course_matrix model_data) member c))
        <$> columns (member_course_matrix model_data)))).

(** A course passes the filters of the scoring loop. *)
Definition candidate (played_courses : gset string) (is_premium : bool)
    (course : string) (info : Course.t) : Prop :=
  (course ∉ played_courses) ∧
  course_metadata course = Some info ∧
  (Course.tier_required info = "premium" → is_premium = true).

(** A record the scoring path can return for a member: the record of a
    column of the matrix that the member has not played, that has metadata
    and that the member's tier may see, with its rounded weighted sum. *)
Definition selected (member : string) (is_premium : bool)
    (r : Recommendation.t) : Prop :=
  ∃ course info,
    course ∈ columns (member_course_matrix model_data) ∧
    ¬ 0 < interaction_count member course ∧
    course_metadata course = Some info ∧
    (Course.tier_required info = "premium" → is_premium = true) ∧
    r = recommendation_of member info course
          (round (weighted_sum member course) 2).

(** A record of the fallback for a row of the catalog. *)
Definition popular_record (course : Course.t) (r : Recommendation.t) : Prop :=
  Recommendation.id r = Course.course_id course ∧
  Recommendation.name r = Course.name course ∧
  Recommendation.city r = Course.city course ∧
  Recommendation.state r = Course.state course ∧
  Recommendation.tier_required r = Course.tier_required course ∧
  Recommendation.score r = 0%Q ∧
  Recommendation.reason r = "Popular course".

End Vocabulary.

(** ** Model stores to run the engine on *)

(** Three members and five courses.  M1 is premium and is 0.8 similar to M2
    and 0.1 to M3; M2 played C1 twice and M3 once.  M3 has no row in the
    member table and C4 none in the course table. *)
Definition demo_plays (member course : string) : Z :=
  match member, course with
  | "M1", "C2" => 3
  | "M2", "C1" => 2
  | "M2", "C3" => 1
  | "M3", "C1" => 1
  | "M3", "C5" => 1
  | _, _ => 0
  end.

Definition demo_similarity (row column : string) : Q :=
  match row, column with
  | "M1", "M2" | "M2", "M1" => 8 # 10
  | "M1", "M3" | "M3", "M1" => 1 # 10
  | "M2", "M3" | "M3", "M2" => 5 # 10
  | _, _ => 1
  end.

Definition demo_model : ModelData := {|
  member_course_matrix :=
    frame ["M1"; "M2"; "M3"] ["C1"; "C2"; "C3"; "C4"; "C5"] demo_plays
      eq_refl eq_refl;
  member_similarity_df :=
    frame ["M1"; "M2"; "M3"] ["M1"; "M2"; "M3"] demo_similarity
      eq_refl eq_refl;
  members_df := [MemberRow.mk "M1" "premium"; MemberRow.mk "M2" "standard"];
  courses_df :=
    [Course.mk "C1" "Pebble Links" "Monterey" "CA" "premium";
     Course.mk "C2" "Pine Hollow" "Asheville" "NC" "standard";
     Course.mk "C3" "Mesa Verde" "Tucson" "AZ" "standard";
     Course.mk "C5" "Harbor Point" "Newport" "RI" "premium"];
  member_names := {[ "M1" := "Alice"; "M2" := "Bob" ]}
|}.

(** A store whose similarity matrix was built without member M1. *)
Definition uncovered_model : ModelData := {|
  member_course_matrix :=
    frame ["M1"] ["C1"] (λ _ _, 0) eq_refl eq_refl;
  member_similarity_df := frame [] [] (λ _ _, 1%Q) eq_refl eq_refl;
  members_df := [MemberRow.mk "M1" "standard"];
  courses_df := [Course.mk "C1" "Pebble Links" "Monterey" "CA" "standard"];
  member_names := ∅
|}.

(** A store whose similarity matrix names a member, M2, that has no row of
    interactions. *)
Definition orphan_model : ModelData := {|
  member_course_matrix :=
    frame ["M1"] ["C1"] (λ _ _, 0) eq_refl eq_refl;
  member_similarity_df :=
    frame ["M1"; "M2"] ["M1"; "M2"] (λ _ _, 1%Q) eq_refl eq_refl;
  members_df := [MemberRow.mk "M1" "standard"];
  courses_df := [Course.mk "C1" "Pebble Links" "Monterey" "CA" "standard"];
  member_names := ∅
|}.

(** What member M1 of [demo_model] is recommended. *)
Definition demo_premium_result : list Recommendation.t :=
  [Recommendation.mk "C1" "Pebble Links" "Monterey" "CA" "premium"
     (17 # 10) "Played by: Bob";
   Recommendation.mk "C3" "Mesa Verde" "Tucson" "AZ" "standard"
     (4 # 5) "Played by: Bob";
   Recommendation.mk "C5" "Harbor Point" "Newport" "RI" "premium"
     (1 # 10) "Recommended for you"].

(** The order of the ranking: the left pair scores at least the right. *)
Definition score_ge (x y : string * Q) : Prop := (y.2 <= x.2)%Q.

(** A store with a tie: member M1 is 0.5 similar to M2, who played C1 and
    C2 once each; nobody played C3.  The catalog lists C2 before C1. *)
Definition tied_plays (member course : string) : Z :=
  match member, course with
  | "M2", "C1" => 1
  | "M2", "C2" => 1
  | _, _ => 0
  end.

Definition tied_model : ModelData := {|
  member_course_matrix :=
    frame ["M1"; "M2"] ["C1"; "C2"; "C3"] tied_plays eq_refl eq_refl;
  member_similarity_df :=
    frame ["M1"; "M2"] ["M1"; "M2"] (λ _ _, 1 # 2)%Q eq_refl eq_refl;
  members_df := [MemberRow.mk "M1" "standard"];
  courses_df :=
    [Course.mk "C2" "Pine Hollow" "Asheville" "NC" "standard";
     Course.mk "C1" "Pebble Links" "Monterey" "CA" "standard";
     Course.mk "C3" "Mesa Verde" "Tucson" "AZ" "standard"];
  member_names := {[ "M2" := "Bob" ]}
|}.

(** What member M1 of [tied_model] is recommended. *)
Definition tied_result : list Recommendation.t :=
  [Recommendation.mk "C1" "Pebble Links" "Monterey" "CA" "standard"
     (1 # 2) "Played by: Bob";
   Recommendation.mk "C2" "Pine Hollow" "Asheville" "NC" "standard"
     (1 # 2) "Played by: Bob";
   Recommendation.mk "C3" "Mesa Verde" "Tucson" "AZ" "standard"
     0 "Recommended for you"].

(** ** Eligibility *)

Section Eligibility.

Variable model_data : ModelData.

(** A course the scoring loop scores for a member: a column of the
    interaction matrix that the member has not played, with metadata, that
    the tier of the member may see. *)
Definition eligible (member course : string) : Prop :=
  course ∈ columns (member_course_matrix model_data) ∧
  ¬ 0 < interaction_count model_data member course ∧
  ∃ member_row info,
    member_metadata model_data member = Some member_row ∧
    course_metadata model_data course = Some info ∧
    (Course.tier_required info = "premium" →
     MemberRow.tier member_row = "premium").

(** The similarity matrix has the member's column and row. *)
Definition similarity_known (member : string) : Prop :=
  member ∈ columns (member_similarity_df model_data) ∧
  member ∈ index (member_similarity_df model_data).

End Eligibility.

(** ** The HTTP surface *)

(** The handlers read the module-level [model_data], [None] until the
    startup has unpickled a model; the startup itself ([load_model]: a file
    read and [pickle.load] of an arbitrary Python value) is not embedded. *)

(** What a handler of the application can raise: the [HTTPException] of
    the handler, or an exception of the engine that no handler catches. *)
Inductive app_exn : Type :=
  | HTTPException (status_code : Z) (detail : string)
  | Uncaught (e : exn).

Inductive outcome (A : Type) : Type :=
  | Return (a : A)
  | Throw (e : app_exn).
Arguments Return {A} a.
Arguments Throw {A} e.

Module RootResponse.
Record t : Type := mk {
  message : string;
  status : string;
  model_loaded : bool
}.
End RootResponse.

Module HealthResponse.
Record t : Type := mk { status : string; model_loaded : bool }.
End HealthResponse.

Module RecommendationsResponse.
Record t : Type := mk {
  member_id : string;
  recommendations : list Recommendation.t
}.
End RecommendationsResponse.

(** [GET /] *)
Definition root (model_data : option ModelData) : RootResponse.t :=
  {| RootResponse.message := "ParPass ML API";
     RootResponse.status := "running";
     RootResponse.model_loaded := bool_decide (is_Some model_data) |}.

(** [GET /recommendations/{member_id}] *)
Definition recommendations (model_data : option ModelData)
    (member_id : string) (limit : Z) : outcome RecommendationsResponse.t :=
  match model_data with
  | None => Throw (HTTPException 503 "Model not loaded")
  | Some data =>
      match get_recommendations data member_id limit with
      | Ok results =>
          Return {| RecommendationsResponse.member_id := member_id;
                    RecommendationsResponse.recommendations := results |}
      | Raise e => Throw (Uncaught e)
      end
  end.

(** [GET /health] *)
Definition health (model_data : option ModelData) : HealthResponse.t :=
  {| HealthResponse.status := "healthy";
     HealthResponse.model_loaded := bool_decide (is_Some model_data) |}.

(** ** Facts about the primitives *)

Lemma bind_Ok_inv {A B} (r : result A) (f : A → result B) (b : B) :
  r ≫= f = Ok b → ∃ a, r = Ok a ∧ f a = Ok b.
Proof. destruct r as [a|e]; [eauto | discriminate]. Qed.

Lemma loc_Ok_inv {V} (df : DataFrame V) r c v :
  loc df r c = Ok v → r ∈ index df ∧ c ∈ columns df ∧ v = values df r c.
Proof. unfold loc. repeat case_decide; naive_solver. Qed.

Lemma loc_Ok {V} (df : DataFrame V) r c :
  r ∈ index df → c ∈ columns df → loc df r c = Ok (values df r c).
Proof. intros Hr Hc. unfold loc. by rewrite !decide_True. Qed.

Lemma slice_to_subseteq {A} (l : list A) n : slice_to l n ⊆ l.
Proof. unfold slice_to. case_decide; apply subseteq_take. Qed.

Lemma slice_to_length {A} (l : list A) n :
  0 ≤ n → Z.of_nat (length (slice_to l n)) ≤ n.
Proof.
  intros Hn. unfold slice_to. rewrite decide_True by done.
  rewrite length_take. lia.
Qed.

Lemma slice_to_nonneg {A} (l : list A) n :
  0 ≤ n → slice_to l n = take (Z.to_nat n) l.
Proof. intros Hn. unfold slice_to. by rewrite decide_True. Qed.

Lemma slice_to_prefix {A} (l : list A) n : slice_to l n `prefix_of` l.
Proof. unfold slice_to. case_decide; apply prefix_take. Qed.

Lemma dict_set_elem_of {V} (d : list (string * V)) k v x :
  x ∈ dict_set d k v → x = (k, v) ∨ x ∈ d.
Proof.
  induction d as [|[k' v'] d IH]; simpl.
  - rewrite list_elem_of_singleton. auto.
  - case_decide; rewrite !elem_of_cons; intros [->|Hx]; auto.
    destruct (IH Hx); auto.
Qed.

Lemma slice_to_all {A} (l : list A) n :
  Z.of_nat (length l) ≤ n → slice_to l n = l.
Proof.
  intros Hn. unfold slice_to. rewrite decide_True by lia.
  apply take_ge. lia.
Qed.

Lemma dict_set_keys {V} (d : list (string * V)) k v k' :
  k' = k ∨ k' ∈ d.*1 → k' ∈ (dict_set d k v).*1.
Proof.
  induction d as [|[k0 v0] d IH]; simpl.
  - intros [->|Hin]; [by left|by apply elem_of_nil in Hin].
  - case_decide as Hk; rewrite !fmap_cons; simpl; rewrite !elem_of_cons.
    + subst k0. intros [->|[->|Hin]]; auto.
    + intros [->|[->|Hin]]; auto.
Qed.

Lemma dict_set_length {V} (d : list (string * V)) k v :
  (length (dict_set d k v) ≤ S (length d))%nat.
Proof.
  induction d as [|[k0 v0] d IH]; simpl; [lia|].
  case_decide; simpl; lia.
Qed.

Lemma insert_desc_Permutation x l : insert_desc x l ≡ₚ x :: l.
Proof.
  induction l as [|y l IH]; simpl; [done|].
  destruct (Qgtb y.2 x.2); [|done].
  rewrite IH. apply Permutation_swap.
Qed.

Lemma sorted_desc_Permutation l : sorted_desc l ≡ₚ l.
Proof.
  induction l as [|x l IH]; simpl; [done|].
  by rewrite insert_desc_Permutation, IH.
Qed.

Lemma Qgtb_lt x y : Qgtb x y = true ↔ (y < x)%Q.
Proof.
  unfold Qgtb. rewrite negb_true_iff, <- not_true_iff_false, Qle_bool_iff.
  split; [apply Qnot_le_lt | apply Qlt_not_le].
Qed.

(** Rounding does not see which fraction represents the number. *)
Lemma round_half_even_comp x y : (x == y)%Q → round_half_even x = round_half_even y.
Proof.
  intros Hxy. unfold round_half_even.
  rewrite (Qfloor_comp _ _ Hxy).
  assert (x - inject_Z (Qfloor y) == y - inject_Z (Qfloor y))%Q as Hd
    by (by rewrite Hxy).
  by rewrite (Qcompare_comp _ _ Hd (1 # 2)%Q (1 # 2)%Q (Qeq_refl _)).
Qed.

Lemma round_comp x y ndigits : (x == y)%Q → round x ndigits = round y ndigits.
Proof.
  intros Hxy. unfold round.
  erewrite round_half_even_comp; [done|]. by rewrite Hxy.
Qed.

Lemma Qsum_foldl {A} (f : A → Q) (l : list A) (acc : Q) :
  (foldl (λ a x, a + f x) acc l == acc + Qsum (f <$> l))%Q.
Proof.
  revert acc. induction l as [|x l IH]; intros acc.
  - unfold Qsum; simpl. ring.
  - change (foldl (λ a x, a + f x)%Q (acc + f x)%Q l
            == acc + Qsum (f <$> x :: l))%Q.
    rewrite IH. unfold Qsum. rewrite fmap_cons.
    generalize (f <$> l); intros k. simpl. ring.
Qed.

(** Reading a filtered, tabulated series at one of its labels. *)
Lemma series_get_tabulated {V} (f : string → V) (P : string → Prop)
    `{!∀ x, Decision (P x)} (l : list string) (o : string) :
  o ∈ l → P o →
  series_get (filter (λ p, P p.1) ((λ r, (r, f r)) <$> l)) o = Ok (f o).
Proof.
  intros Hin HP. unfold series_get.
  induction l as [|r l IH]; [by apply elem_of_nil in Hin|].
  rewrite fmap_cons, filter_cons. simpl.
  destruct (decide (P r)) as [HPr|HPr]; simpl.
  - destruct (decide (r = o)) as [->|Hne]; [done|].
    apply elem_of_cons in Hin as [->|Hin]; [done|].
    specialize (IH Hin).
    destruct (list_find _ _) as [[i p]|]; simpl in *; [done|discriminate].
  - apply elem_of_cons in Hin as [->|Hin]; [done|]. by apply IH.
Qed.

Lemma series_index_tabulated {V} (f : string → V) (P : string → Prop)
    `{!∀ x, Decision (P x)} (l : list string) :
  series_index (filter (λ p, P p.1) ((λ r, (r, f r)) <$> l)) = filter P l.
Proof.
  unfold series_index. induction l as [|r l IH]; [done|].
  rewrite fmap_cons, !filter_cons. simpl.
  destruct (decide (P r)); [rewrite fmap_cons; simpl; f_equal|]; exact IH.
Qed.

Lemma series_index_fmap {V} (f : string → V) (l : list string) :
  series_index ((λ r, (r, f r)) <$> l) = l.
Proof.
  unfold series_index. induction l as [|r l IH]; [done|].
  rewrite !fmap_cons. simpl. f_equal. exact IH.
Qed.

(** ** Facts about the loops of the engine *)

Section EngineFacts.

Variable model_data : ModelData.

Abbreviation mcm := (member_course_matrix model_data).
Abbreviation sim_df := (member_similarity_df model_data).

Lemma elem_of_other_members member other :
  other ∈ other_members model_data member ↔ other ≠ member ∧ other ∈ index sim_df.
Proof.
  unfold other_members. apply (list_elem_of_filter (λ o, o ≠ member)).
Qed.

Lemma series_index_similarity_vector member :
  series_index (similarity_vector model_data member)
  = other_members model_data member.
Proof.
  unfold similarity_vector, other_members.
  exact (series_index_tabulated (λ r, values sim_df r member)
           (λ o, o ≠ member) (index sim_df)).
Qed.

Lemma series_get_similarity_vector member other :
  other ∈ other_members model_data member →
  series_get (similarity_vector model_data member) other
  = Ok (similarity model_data member other).
Proof.
  intros [Hne Hin]%elem_of_other_members.
  unfold similarity_vector, similarity.
  exact (series_get_tabulated (λ r, values sim_df r member)
           (λ o, o ≠ member) (index sim_df) other Hin Hne).
Qed.

(** The vector is there exactly when the matrix has the member's column
    and row. *)
Lemma similarities_Ok_inv member sims :
  (getitem sim_df member ≫= λ column, drop column member) = Ok sims →
  member ∈ columns sim_df ∧ member ∈ index sim_df ∧
  sims = similarity_vector model_data member.
Proof.
  unfold getitem, drop. case_decide as Hcol; [|discriminate]. simpl.
  case_decide as Hidx; [|discriminate]. intros [= <-].
  split; [done|]. split; [|done].
  by rewrite series_index_fmap in Hidx.
Qed.

Lemma similarities_Ok member :
  member ∈ columns sim_df → member ∈ index sim_df →
  (getitem sim_df member ≫= λ column, drop column member)
  = Ok (similarity_vector model_data member).
Proof.
  intros Hcol Hidx. unfold getitem, drop. rewrite decide_True by done. simpl.
  rewrite decide_True; [done|]. by rewrite series_index_fmap.
Qed.

Lemma score_loop_inv member course others acc s :
  others ⊆ other_members model_data member →
  score_loop model_data (similarity_vector model_data member) course others acc
  = Ok s →
  s = running_score model_data member course acc others.
Proof.
  revert acc. induction others as [|o others IH]; intros acc Hsub; simpl.
  - by intros [= <-].
  - rewrite series_get_similarity_vector by (apply Hsub; left). simpl.
    intros (plays & Hloc & Hrest)%bind_Ok_inv.
    apply loc_Ok_inv in Hloc as (_ & _ & ->).
    apply IH in Hrest; [done|]. intros x Hx. apply Hsub. by right.
Qed.

Lemma score_loop_Ok member course others acc :
  others ⊆ other_members model_data member →
  (∀ o, o ∈ others → o ∈ index mcm) → course ∈ columns mcm →
  score_loop model_data (similarity_vector model_data member) course others acc
  = Ok (running_score model_data member course acc others).
Proof.
  revert acc. induction others as [|o others IH]; intros acc Hsub Hidx Hcol;
    simpl; [done|].
  rewrite series_get_similarity_vector by (apply Hsub; left). simpl.
  rewrite loc_Ok by (done || apply Hidx; left). simpl.
  apply IH; [|intros x Hx; apply Hidx; by right|done].
  intros x Hx. apply Hsub. by right.
Qed.

Lemma running_score_weighted_sum member course :
  (running_score model_data member course 0 (other_members model_data member)
   == weighted_sum model_data member course)%Q.
Proof.
  unfold running_score, weighted_sum.
  rewrite (Qsum_foldl (λ other, similarity model_data member other
             * inject_Z (interaction_count model_data other course))%Q).
  ring.
Qed.

(** The names collected for a course are those of the members backing it. *)
Lemma names_loop_step member course other :
  other ∈ other_members model_data member →
  ∀ plays, loc mcm other course = Ok plays →
  (bool_decide (0 < plays)
   && Qgtb (similarity model_data member other) (3 # 10) = true)
  ↔ backs model_data member course other.
Proof.
  intros Hin plays (_ & _ & ->)%loc_Ok_inv. unfold backs.
  rewrite andb_true_iff, bool_decide_eq_true, Qgtb_lt. done.
Qed.

Lemma names_loop_inv member course others acc names :
  others ⊆ other_members model_data member →
  names_loop model_data (similarity_vector model_data member) course others acc
  = Ok names →
  names = acc ++ (display_name model_data
                  <$> filter (backs model_data member course) others).
Proof.
  revert acc. induction others as [|o others IH]; intros acc Hsub; simpl.
  - intros [= <-]. by rewrite app_nil_r.
  - assert (o ∈ other_members model_data member) as Ho by (apply Hsub; left).
    assert (others ⊆ other_members model_data member) as Hsub'
      by (intros x Hx; apply Hsub; by right).
    intros (plays & Hloc & Hrest)%bind_Ok_inv.
    pose proof (names_loop_step member course o Ho plays Hloc) as Hstep.
    rewrite filter_cons.
    destruct (bool_decide (0 < plays)) eqn:Hplays.
    + rewrite series_get_similarity_vector in Hrest by done. simpl in Hrest.
      destruct (Qgtb _ _) eqn:Hsim; simpl in Hstep.
      * rewrite decide_True by (by apply Hstep).
        apply IH in Hrest as ->; [|done].
        rewrite fmap_cons, <- app_assoc. done.
      * rewrite decide_False by (rewrite <- Hstep; done). by apply IH.
    + simpl in Hstep. rewrite decide_False by (rewrite <- Hstep; done).
      by apply IH.
Qed.

Lemma names_loop_Ok member course others acc :
  others ⊆ other_members model_data member →
  (∀ o, o ∈ others → o ∈ index mcm) → course ∈ columns mcm →
  ∃ names,
    names_loop model_data (similarity_vector model_data member) course others acc
    = Ok names.
Proof.
  revert acc. induction others as [|o others IH]; intros acc Hsub Hidx Hcol;
    simpl; [by eexists|].
  assert (others ⊆ other_members model_data member) as Hsub'
    by (intros x Hx; apply Hsub; by right).
  assert (∀ o, o ∈ others → o ∈ index mcm) as Hidx'
    by (intros x Hx; apply Hidx; by right).
  rewrite loc_Ok by (done || apply Hidx; left). simpl.
  destruct (bool_decide _); [|by apply IH].
  rewrite series_get_similarity_vector by (apply Hsub; left). simpl.
  destruct (Qgtb _ _); by apply IH.
Qed.

Lemma reason_text_expected member course :
  reason_text (display_name model_data
               <$> filter (backs model_data member course)
                     (other_members model_data member))
  = expected_reason model_data member course.
Proof.
  unfold reason_text, expected_reason.
  destruct (display_name model_data <$> _); [done|].
  by rewrite slice_to_nonneg.
Qed.

Lemma elem_of_played_courses_of member course :
  course ∈ played_courses_of model_data member
  ↔ course ∈ columns mcm ∧ 0 < interaction_count model_data member course.
Proof.
  unfold played_courses_of, series_index, interaction_count.
  rewrite elem_of_list_to_set, list_elem_of_fmap. split.
  - intros ([c v] & -> & [Hpos Hin]%list_elem_of_filter).
    apply list_elem_of_fmap in Hin as (c' & [= -> ->] & Hc'). done.
  - intros [Hin Hpos]. exists (course, values mcm member course).
    split; [done|]. apply list_elem_of_filter. split; [done|].
    apply list_elem_of_fmap. eauto.
Qed.

Lemma scores_loop_inv is_premium played member cols d0 d :
  scores_loop model_data is_premium played (similarity_vector model_data member)
    cols d0 = Ok d →
  ∀ c s, (c, s) ∈ d →
    (c, s) ∈ d0 ∨
    (c ∈ cols ∧
     (∃ info, candidate model_data played is_premium c info) ∧
     s = running_score model_data member c 0
           (other_members model_data member)).
Proof.
  revert d0. induction cols as [|course cols IH]; intros d0; simpl.
  - intros [= <-] c s Hin. by left.
  - assert (∀ d1, scores_loop model_data is_premium played
                    (similarity_vector model_data member) cols d1 = Ok d →
              ∀ c s, (c, s) ∈ d → (c, s) ∈ d1 ∨
                (c ∈ course :: cols ∧
                 (∃ info, candidate model_data played is_premium c info) ∧
                 s = running_score model_data member c 0
                       (other_members model_data member)))
      as Hskip.
    { intros d1 Hd1 c s Hin.
      destruct (IH _ Hd1 c s Hin) as [?|(? & ? & ?)]; [by left|right].
      split; [by right|done]. }
    case_decide as Hplayed; [by apply Hskip|].
    unfold course_metadata in *.
    destruct (courses_with_id model_data course) as [|course_row rows] eqn:Hrows;
      [by apply Hskip|].
    destruct (bool_decide _ && negb is_premium) eqn:Hgate; [by apply Hskip|].
    intros (score & Hscore & Hrest)%bind_Ok_inv c s Hin.
    rewrite series_index_similarity_vector in Hscore.
    apply score_loop_inv in Hscore; [|done].
    destruct (Hskip _ Hrest c s Hin) as [Hset|?]; [|by right].
    apply dict_set_elem_of in Hset as [[= -> ->]|?]; [right|by left].
    split; [by left|]. split; [|done].
    exists course_row. unfold candidate, course_metadata. rewrite Hrows.
    split; [done|]. split; [done|]. intros Htier.
    rewrite bool_decide_eq_true_2 in Hgate by done.
    by destruct is_premium.
Qed.

Lemma results_loop_inv member top acc l :
  results_loop model_data (similarity_vector model_data member) top acc = Ok l →
  ∃ l', l = acc ++ l' ∧
    Forall2 (λ cs r, ∃ info,
               course_metadata model_data cs.1 = Some info ∧
               r = recommendation_of model_data member info cs.1 (round cs.2 2))
            top l'.
Proof.
  revert acc. induction top as [|[course score] top IH]; intros acc; simpl.
  - intros [= <-]. exists []. by rewrite app_nil_r.
  - intros (info & Hinfo & Hrest)%bind_Ok_inv.
    apply bind_Ok_inv in Hrest as (names & Hnames & Hrest).
    rewrite series_index_similarity_vector in Hnames.
    apply names_loop_inv in Hnames; [|done]. simpl in Hnames. subst names.
    rewrite reason_text_expected in Hrest.
    apply IH in Hrest as (l' & -> & Hall).
    eexists (_ :: l'). rewrite <- app_assoc. split; [done|].
    constructor; [|done]. exists info. split; [|done].
    unfold course_metadata. simpl.
    by destruct (courses_with_id model_data course); simplify_eq/=.
Qed.

Lemma results_loop_Ok member top acc :
  (∀ o, o ∈ other_members model_data member → o ∈ index mcm) →
  (∀ cs, cs ∈ top →
     is_Some (course_metadata model_data cs.1) ∧ cs.1 ∈ columns mcm) →
  ∃ l, results_loop model_data (similarity_vector model_data member) top acc
       = Ok l.
Proof.
  intros Hidx. revert acc.
  induction top as [|[course score] top IH]; intros acc Htop; simpl;
    [by eexists|].
  destruct (Htop (course, score)) as [[info Hinfo] Hcol]; [by left|].
  unfold course_metadata in Hinfo. simpl in *.
  destruct (courses_with_id model_data course) as [|row rows];
    [discriminate|]. simpl.
  rewrite series_index_similarity_vector.
  destruct (names_loop_Ok member course (other_members model_data member) [])
    as [names ->]; [done|done|done|]. simpl.
  apply IH. intros cs Hcs. apply Htop. by right.
Qed.

(** Whatever the scoring path returns. *)
Lemma scoring_path_inv member n l :
  member ∈ index mcm →
  get_recommendations model_data member n = Ok l →
  match member_metadata model_data member with
  | None => l = []
  | Some member_row =>
      member ∈ columns sim_df ∧ member ∈ index sim_df ∧
      Forall (selected model_data member
                (bool_decide (MemberRow.tier member_row = "premium"))) l ∧
      (0 ≤ n → Z.of_nat (length l) ≤ n)
  end.
Proof.
  intros Hidx. unfold get_recommendations, member_metadata, str.
  rewrite decide_False by (intros Hn; by apply Hn).
  destruct (members_with_id model_data member) as [|member_row rows]; simpl;
    [by intros [= <-]|].
  unfold loc_row. rewrite decide_True by done. simpl.
  fold (played_courses_of model_data member).
  intros (column & Hcolumn & Hrest)%bind_Ok_inv.
  apply bind_Ok_inv in Hrest as (sims & Hsims & Hrest).
  assert ((getitem sim_df member ≫= λ column, drop column member) = Ok sims)
    as Hvec by (by rewrite Hcolumn).
  apply similarities_Ok_inv in Hvec as (Hcol & Hrow & ->).
  apply bind_Ok_inv in Hrest as (course_scores & Hscores & Hresults).
  apply results_loop_inv in Hresults as (l' & -> & Hall). simpl.
  split; [done|]. split; [done|]. split.
  - apply Forall_forall. intros r Hr.
    destruct (proj1 (list_elem_of_lookup _ _) Hr) as [i Hi].
    destruct (Forall2_lookup_r _ _ _ _ _ Hall Hi) as ([c s] & Hcs & info & Hinfo & ->).
    apply list_elem_of_lookup_2, slice_to_subseteq in Hcs.
    rewrite sorted_desc_Permutation in Hcs.
    destruct (scores_loop_inv _ _ _ _ _ _ Hscores c s Hcs)
      as [Hnil|(Hc & (info' & Hnot & Hinfo' & Hgate) & ->)];
      [by apply elem_of_nil in Hnil|].
    simpl in *. rewrite Hinfo in Hinfo'. injection Hinfo' as <-.
    exists c, info. split; [done|]. split.
    { intros Hpos. apply Hnot, elem_of_played_courses_of. done. }
    split; [done|]. split; [done|]. f_equal.
    apply round_comp, running_score_weighted_sum.
  - intros Hn. rewrite <- (Forall2_length _ _ _ Hall).
    by apply slice_to_length.
Qed.

(** The path taken for a member the interaction matrix does not know. *)
Lemma fallback_path member n :
  member ∉ index mcm →
  get_recommendations model_data member n
  = Ok (get_popular_courses model_data member n).
Proof. intros Hidx. unfold get_recommendations, str. by rewrite decide_True. Qed.

(** With room for every column, every candidate course is returned. *)
Lemma scores_loop_complete is_premium played member cols d0 d :
  scores_loop model_data is_premium played (similarity_vector model_data member)
    cols d0 = Ok d →
  (∀ c, c ∈ d0.*1 → c ∈ d.*1) ∧
  (∀ c info, c ∈ cols → candidate model_data played is_premium c info → c ∈ d.*1) ∧
  (length d ≤ length d0 + length cols)%nat.
Proof.
  revert d0. induction cols as [|course cols IH]; intros d0; simpl.
  - intros [= <-]. split; [done|]. split; [|lia].
    intros c info Hc. by apply elem_of_nil in Hc.
  - assert ((∀ info, ¬ candidate model_data played is_premium course info) →
              scores_loop model_data is_premium played
                (similarity_vector model_data member) cols d0 = Ok d →
              (∀ c, c ∈ d0.*1 → c ∈ d.*1) ∧
              (∀ c info, c ∈ course :: cols →
                 candidate model_data played is_premium c info → c ∈ d.*1) ∧
              (length d ≤ length d0 + S (length cols))%nat) as Hskip.
    { intros Hnot (Hkeep & Hnew & Hlen)%IH.
      split; [done|]. split; [|lia].
      intros c info [->|Hc]%elem_of_cons Hcand; [|by eapply Hnew].
      by destruct (Hnot info). }
    case_decide as Hplayed.
    { apply Hskip. by intros info (? & _). }
    destruct (courses_with_id model_data course) as [|course_row rows] eqn:Hrows.
    { apply Hskip. intros info (_ & Hinfo & _).
      unfold course_metadata in Hinfo. by rewrite Hrows in Hinfo. }
    destruct (bool_decide _ && negb is_premium) eqn:Hgate.
    { apply Hskip. intros info (_ & Hinfo & Htier).
      unfold course_metadata in Hinfo. rewrite Hrows in Hinfo.
      injection Hinfo as <-.
      apply andb_true_iff in Hgate as [Hp%bool_decide_eq_true Hn].
      rewrite (Htier Hp) in Hn. discriminate. }
    intros (score & _ & (Hkeep & Hnew & Hlen)%IH)%bind_Ok_inv.
    pose proof (dict_set_keys d0 course score) as Hkeys.
    pose proof (dict_set_length d0 course score) as Hlen'.
    split; [|split; [|lia]].
    + intros c Hc. apply Hkeep, Hkeys. by right.
    + intros c info [->|Hc]%elem_of_cons Hcand; [|by eapply Hnew].
      apply Hkeep, Hkeys. by left.
Qed.

End EngineFacts.

Lemma course_metadata_Some model_data course info :
  course_metadata model_data course = Some info →
  info ∈ courses_df model_data ∧ Course.course_id info = course.
Proof.
  unfold course_metadata, courses_with_id.
  intros Hin%head_Some_elem_of.
  apply (list_elem_of_filter (λ c, Course.course_id c = course)) in Hin.
  tauto.
Qed.

Lemma members_with_id_nil model_data member :
  (∀ row, row ∈ members_df model_data → MemberRow.member_id row ≠ member) →
  members_with_id model_data member = [].
Proof.
  unfold members_with_id. induction (members_df model_data) as [|row rows IH];
    intros Hall; [done|].
  rewrite filter_cons, decide_False by (apply Hall; left).
  apply IH. intros r Hr. apply Hall. by right.
Qed.

Example demo_premium_member :
  get_recommendations demo_model "M1" 5 = Ok demo_premium_result.
Proof. vm_compute. reflexivity. Qed.

Example demo_standard_member :
  get_recommendations demo_model "M2" 5
  = Ok [Recommendation.mk "C2" "Pine Hollow" "Asheville" "NC" "standard"
          (12 # 5) "Played by: Alice"].
Proof. vm_compute. reflexivity. Qed.

Example demo_member_without_row :
  get_recommendations demo_model "M3" 5 = Ok [].
Proof. vm_compute. reflexivity. Qed.

Example reason_text_two_names :
  reason_text ["Bob"; "Alice"; "Carol"] = "Played by: Bob, Alice"
  ∧ reason_text [] = "Recommended for you".
Proof. split; reflexivity. Qed.

Example demo_unknown_member :
  get_recommendations demo_model "M9" 2
  = Ok [Recommendation.mk "C1" "Pebble Links" "Monterey" "CA" "premium"
          0 "Popular course";
        Recommendation.mk "C2" "Pine Hollow" "Asheville" "NC" "standard"
          0 "Popular course"].
Proof. vm_compute. reflexivity. Qed.

Example round_ties_to_even :
  round (1 # 8) 2 = 3 # 25 ∧ round (3 # 8) 2 = 19 # 50.
Proof. split; vm_compute; reflexivity. Qed.

(** The scenario of the specification, in exact arithmetic:
    0.8 × 2 + 0.1 × 1 = 1.7. *)
Example weighted_sum_scenario :
  round (weighted_sum demo_model "M1" "C1") 2 = 17 # 10.
Proof. vm_compute. reflexivity. Qed.

(** ** Tier gating *)

(** C3: for a member of the interaction matrix whose tier is not "premium",
    no record returned by [get_recommendations] has [tier_required]
    "premium", whatever the requested count. *)
Theorem premium_hidden_from_standard_member model_data member n l :
  member ∈ index (member_course_matrix model_data) →
  (∀ member_row, member_metadata model_data member = Some member_row →
                 MemberRow.tier member_row ≠ "premium") →
  get_recommendations model_data member n = Ok l →
  ∀ r, r ∈ l → Recommendation.tier_required r ≠ "premium".
Proof.
  intros Hidx Htier Hget r Hr.
  pose proof (scoring_path_inv _ _ _ _ Hidx Hget) as Hinv.
  destruct (member_metadata model_data member) as [member_row|].
  - destruct Hinv as (_ & _ & Hall & _). rewrite Forall_forall in Hall.
    destruct (Hall r Hr) as (course & info & _ & _ & _ & Hgate & ->).
    simpl. intros Hpremium%Hgate%bool_decide_eq_true.
    by apply (Htier member_row).
  - subst l. by apply elem_of_nil in Hr.
Qed.

Lemma premium_hidden_from_standard_member_witness :
  "M2" ∈ index (member_course_matrix demo_model) ∧
  (∀ member_row, member_metadata demo_model "M2" = Some member_row →
                 MemberRow.tier member_row ≠ "premium") ∧
  ∀ r, r ∈ [Recommendation.mk "C2" "Pine Hollow" "Asheville" "NC" "standard"
              (12 # 5) "Played by: Alice"] →
       Recommendation.tier_required r ≠ "premium".
Proof.
  assert (∀ member_row, member_metadata demo_model "M2" = Some member_row →
                        MemberRow.tier member_row ≠ "premium") as Htier.
  { intros member_row [= <-]. discriminate. }
  split; [compute_done|]. split; [exact Htier|].
  apply (premium_hidden_from_standard_member demo_model "M2" 5).
  - compute_done.
  - exact Htier.
  - vm_compute. reflexivity.
Defined.

(** ** Played courses *)

(** C4: a course whose interaction count for the member is strictly greater
    than zero is the course of no record returned by [get_recommendations],
    whatever the requested count. *)
Theorem played_course_never_recommended model_data member n l course plays :
  loc (member_course_matrix model_data) member course = Ok plays →
  0 < plays →
  get_recommendations model_data member n = Ok l →
  ∀ r, r ∈ l → Recommendation.id r ≠ course.
Proof.
  intros (Hidx & Hcol & ->)%loc_Ok_inv Hpos Hget r Hr.
  pose proof (scoring_path_inv _ _ _ _ Hidx Hget) as Hinv.
  destruct (member_metadata model_data member) as [member_row|].
  - destruct Hinv as (_ & _ & Hall & _). rewrite Forall_forall in Hall.
    destruct (Hall r Hr) as (c & info & _ & Hnot & _ & _ & ->).
    simpl. intros ->. by apply Hnot.
  - subst l. by apply elem_of_nil in Hr.
Qed.

Lemma played_course_never_recommended_witness :
  loc (member_course_matrix demo_model) "M1" "C2" = Ok 3 ∧ 0 < 3 ∧
  ∀ r, r ∈ demo_premium_result →
       Recommendation.id r ≠ "C2".
Proof.
  split; [reflexivity|]. split; [lia|].
  apply (played_course_never_recommended demo_model "M1" 5 _ "C2" 3).
  - reflexivity.
  - lia.
  - vm_compute. reflexivity.
Defined.

(** ** Course metadata *)

(** C7: every course id in a result of the scoring path is the id of a row
    of the course table; a column of the interaction matrix without such a
    row is never returned. *)
Theorem recommended_course_has_metadata model_data member n l :
  member ∈ index (member_course_matrix model_data) →
  get_recommendations model_data member n = Ok l →
  (∀ r, r ∈ l →
     ∃ row, row ∈ courses_df model_data ∧
            Course.course_id row = Recommendation.id r) ∧
  (∀ course,
     (∀ row, row ∈ courses_df model_data → Course.course_id row ≠ course) →
     ∀ r, r ∈ l → Recommendation.id r ≠ course).
Proof.
  intros Hidx Hget.
  assert (∀ r, r ∈ l →
            ∃ row, row ∈ courses_df model_data ∧
                   Course.course_id row = Recommendation.id r) as Hrow.
  { pose proof (scoring_path_inv _ _ _ _ Hidx Hget) as Hinv.
    destruct (member_metadata model_data member) as [member_row|].
    - destruct Hinv as (_ & _ & Hall & _). rewrite Forall_forall in Hall.
      intros r Hr.
      destruct (Hall r Hr) as (c & info & _ & _ & Hinfo & _ & ->).
      apply course_metadata_Some in Hinfo as [Hin Hid]. by exists info.
    - subst l. intros r Hr. by apply elem_of_nil in Hr. }
  split; [done|].
  intros course Hnone r Hr <-.
  destruct (Hrow r Hr) as (row & Hin & Hid). by apply (Hnone row).
Qed.

Lemma recommended_course_has_metadata_witness :
  "M1" ∈ index (member_course_matrix demo_model) ∧
  get_recommendations demo_model "M1" 5
  = Ok demo_premium_result ∧
  ∀ r, r ∈ demo_premium_result →
       ∃ row, row ∈ courses_df demo_model ∧
              Course.course_id row = Recommendation.id r.
Proof.
  split; [compute_done|]. split; [vm_compute; reflexivity|].
  apply (recommended_course_has_metadata demo_model "M1" 5).
  - compute_done.
  - vm_compute. reflexivity.
Defined.

(** ** Explanations *)

(** C8: the reason of every record of the scoring path is "Played by: "
    followed by the first at most two display names, in the order of the
    similarity vector, of the other members more than 0.3 similar to the
    member that played the course; and "Recommended for you" when there is
    no such member. *)
Theorem reason_names_backing_members model_data member n l :
  member ∈ index (member_course_matrix model_data) →
  get_recommendations model_data member n = Ok l →
  ∀ r, r ∈ l →
    Recommendation.reason r
    = expected_reason model_data member (Recommendation.id r).
Proof.
  intros Hidx Hget r Hr.
  pose proof (scoring_path_inv _ _ _ _ Hidx Hget) as Hinv.
  destruct (member_metadata model_data member) as [member_row|].
  - destruct Hinv as (_ & _ & Hall & _). rewrite Forall_forall in Hall.
    by destruct (Hall r Hr) as (c & info & _ & _ & _ & _ & ->).
  - subst l. by apply elem_of_nil in Hr.
Qed.

Lemma reason_names_backing_members_witness :
  "M1" ∈ index (member_course_matrix demo_model) ∧
  ∀ r, r ∈ demo_premium_result →
       Recommendation.reason r
       = expected_reason demo_model "M1" (Recommendation.id r).
Proof.
  split; [compute_done|].
  apply (reason_names_backing_members demo_model "M1" 5).
  - compute_done.
  - vm_compute. reflexivity.
Defined.

(** ** Members the tables do not know *)

(** C9: a member with a row in the interaction matrix and none in the
    member table gets the empty list, whatever the requested count. *)
Theorem member_without_metadata_gets_nothing model_data member n :
  member ∈ index (member_course_matrix model_data) →
  (∀ row, row ∈ members_df model_data → MemberRow.member_id row ≠ member) →
  get_recommendations model_data member n = Ok [].
Proof.
  intros Hidx Hnone. unfold get_recommendations, str.
  rewrite decide_False by (intros Hn; by apply Hn).
  by rewrite members_with_id_nil.
Qed.

Lemma member_without_metadata_gets_nothing_witness :
  "M3" ∈ index (member_course_matrix demo_model) ∧
  (∀ row, row ∈ members_df demo_model → MemberRow.member_id row ≠ "M3") ∧
  get_recommendations demo_model "M3" 5 = Ok [].
Proof.
  assert (∀ row, row ∈ members_df demo_model → MemberRow.member_id row ≠ "M3")
    as Hnone.
  { intros row Hrow. simpl in Hrow.
    rewrite !elem_of_cons in Hrow.
    destruct Hrow as [->|[->|Hnil]]; [discriminate|discriminate|].
    by apply elem_of_nil in Hnil. }
  split; [compute_done|]. split; [exact Hnone|].
  apply (member_without_metadata_gets_nothing demo_model "M3" 5).
  - compute_done.
  - exact Hnone.
Defined.

(** C10: the fallback does not depend on the member id: two members both
    absent from the interaction matrix get the same list for the same
    requested count. *)
Theorem fallback_ignores_member_id model_data member1 member2 n :
  member1 ∉ index (member_course_matrix model_data) →
  member2 ∉ index (member_course_matrix model_data) →
  get_recommendations model_data member1 n
  = get_recommendations model_data member2 n.
Proof.
  intros H1 H2. by rewrite !fallback_path.
Qed.

Lemma fallback_ignores_member_id_witness :
  ("M8" ∉ index (member_course_matrix demo_model)) ∧
  ("M9" ∉ index (member_course_matrix demo_model)) ∧
  get_recommendations demo_model "M8" 2 = get_recommendations demo_model "M9" 2.
Proof.
  split; [compute_done|]. split; [compute_done|].
  apply (fallback_ignores_member_id demo_model "M8" "M9" 2); compute_done.
Defined.

(** ** The fallback *)

(** C2, as the code has it: for a requested count [0 ≤ n], a member absent
    from the interaction matrix gets, without error, the fallback list: the
    records of the first [n] rows of the catalog (of all rows when there are
    fewer), in their stored order, each with score 0 and reason "Popular
    course"; so up to [n] courses. *)
Theorem fallback_for_unknown_member model_data member n :
  0 ≤ n →
  member ∉ index (member_course_matrix model_data) →
  ∃ l,
    get_recommendations model_data member n = Ok l ∧
    Forall2 popular_record (take (Z.to_nat n) (courses_df model_data)) l ∧
    Z.of_nat (length l) ≤ n.
Proof.
  intros Hn Hidx. rewrite fallback_path by done.
  eexists. split; [done|].
  unfold get_popular_courses, df_head. rewrite slice_to_nonneg by done.
  split.
  - induction (take (Z.to_nat n) (courses_df model_data)) as [|course rows IH];
      [constructor|].
    rewrite fmap_cons. constructor; [|exact IH].
    unfold popular_record, str. simpl. tauto.
  - rewrite length_fmap, length_take. lia.
Qed.

Lemma fallback_for_unknown_member_witness :
  0 ≤ 2 ∧
  ("M9" ∉ index (member_course_matrix demo_model)) ∧
  ∃ l,
    get_recommendations demo_model "M9" 2 = Ok l ∧
    Forall2 popular_record (take (Z.to_nat 2) (courses_df demo_model)) l ∧
    Z.of_nat (length l) ≤ 2.
Proof.
  split; [lia|]. split; [compute_done|].
  apply (fallback_for_unknown_member demo_model "M9" 2); [lia|compute_done].
Defined.

(** C2 as stated fails for a negative count: asked for -1 courses, the
    fallback returns three, all rows of the catalog but the last. *)
Lemma fallback_exceeds_negative_count :
  ("M9" ∉ index (member_course_matrix demo_model)) ∧
  get_recommendations demo_model "M9" (-1)
  = Ok [Recommendation.mk "C1" "Pebble Links" "Monterey" "CA" "premium"
          0 "Popular course";
        Recommendation.mk "C2" "Pine Hollow" "Asheville" "NC" "standard"
          0 "Popular course";
        Recommendation.mk "C3" "Mesa Verde" "Tucson" "AZ" "standard"
          0 "Popular course"] ∧
  ¬ (∃ l, get_recommendations demo_model "M9" (-1) = Ok l ∧
          Z.of_nat (length l) ≤ -1).
Proof.
  split; [compute_done|]. split; [vm_compute; reflexivity|].
  intros (l & Hl & Hlen). vm_compute in Hl. injection Hl as <-.
  simpl in Hlen. lia.
Qed.

(** ** Errors *)

(** C5: the code breaks the claim.  Member M1 of [uncovered_model] has a
    row in the interaction matrix and in the member table and none in the
    similarity matrix: the lookup of its similarity column, which no test
    guards, raises [KeyError] where the claim promises an empty or fallback
    result. *)
Lemma get_recommendations_raises_when_uncovered :
  "M1" ∈ index (member_course_matrix uncovered_model) ∧
  is_Some (member_metadata uncovered_model "M1") ∧
  get_recommendations uncovered_model "M1" 5 = Raise (KeyError "M1").
Proof.
  split; [compute_done|]. split; [by eexists|]. vm_compute. reflexivity.
Qed.

(** The lookup of an interaction cell is as unguarded: it raises for a
    member of the similarity matrix without a row of interactions. *)
Example get_recommendations_raises_for_orphan :
  get_recommendations orphan_model "M1" 5 = Raise (KeyError "M2").
Proof. vm_compute. reflexivity. Qed.

(** ** The length of the result *)

(** C6, as the code has it: for a requested count [0 ≤ limit], the list
    returned, by the scoring path or by the fallback, has at most [limit]
    records. *)
Theorem result_length_bounded model_data member limit l :
  0 ≤ limit →
  get_recommendations model_data member limit = Ok l →
  0 ≤ Z.of_nat (length l) ≤ limit.
Proof.
  intros Hlimit Hget. split; [lia|].
  destruct (decide (member ∈ index (member_course_matrix model_data)))
    as [Hidx|Hidx].
  - pose proof (scoring_path_inv _ _ _ _ Hidx Hget) as Hinv.
    destruct (member_metadata model_data member) as [member_row|].
    + destruct Hinv as (_ & _ & _ & Hlen). by apply Hlen.
    + subst l. simpl. lia.
  - rewrite fallback_path in Hget by done. injection Hget as <-.
    unfold get_popular_courses, df_head. rewrite length_fmap.
    by apply slice_to_length.
Qed.

Lemma result_length_bounded_witness :
  0 ≤ 2 ∧
  0 ≤ Z.of_nat (length
         [Recommendation.mk "C1" "Pebble Links" "Monterey" "CA" "premium"
            (17 # 10) "Played by: Bob";
          Recommendation.mk "C3" "Mesa Verde" "Tucson" "AZ" "standard"
            (4 # 5) "Played by: Bob"]) ≤ 2.
Proof.
  split; [lia|].
  apply (result_length_bounded demo_model "M1" 2).
  - lia.
  - vm_compute. reflexivity.
Defined.

(** C6 as stated fails for a negative limit: asked for -1 courses, the
    scoring path returns two, all candidates but the last. *)
Lemma result_longer_than_negative_limit :
  get_recommendations demo_model "M1" (-1)
  = Ok [Recommendation.mk "C1" "Pebble Links" "Monterey" "CA" "premium"
          (17 # 10) "Played by: Bob";
        Recommendation.mk "C3" "Mesa Verde" "Tucson" "AZ" "standard"
          (4 # 5) "Played by: Bob"] ∧
  ¬ (∀ l, get_recommendations demo_model "M1" (-1) = Ok l →
          0 ≤ Z.of_nat (length l) ≤ -1).
Proof.
  split; [vm_compute; reflexivity|].
  intros Hbound.
  specialize (Hbound _ ltac:(vm_compute; reflexivity)).
  simpl in Hbound. lia.
Qed.

(** ** More facts about the primitives *)

Lemma Qgtb_false x y : Qgtb x y = false → (x <= y)%Q.
Proof.
  unfold Qgtb. rewrite negb_false_iff. apply Qle_bool_iff.
Qed.

Lemma insert_desc_sorted x l :
  StronglySorted score_ge l → StronglySorted score_ge (insert_desc x l).
Proof.
  induction l as [|y l IH]; simpl; intros Hl.
  - repeat constructor.
  - apply StronglySorted_inv in Hl as [Hl Hy].
    destruct (Qgtb y.2 x.2) eqn:Hgt.
    + constructor; [by apply IH|].
      rewrite insert_desc_Permutation. constructor; [|done].
      apply Qgtb_lt in Hgt. by apply Qlt_le_weak.
    + apply Qgtb_false in Hgt.
      constructor; [by constructor|].
      constructor; [done|].
      eapply Forall_impl; [exact Hy|].
      intros z Hz. unfold score_ge in *. exact (Qle_trans _ _ _ Hz Hgt).
Qed.

Lemma sorted_desc_sorted l : StronglySorted score_ge (sorted_desc l).
Proof.
  induction l as [|x l IH]; simpl; [constructor|by apply insert_desc_sorted].
Qed.

(** Rounding to an integer moves a number by at most one half, and keeps
    the order. *)
Lemma round_half_even_floor x :
  Qfloor x ≤ round_half_even x ≤ Qfloor x + 1.
Proof.
  unfold round_half_even.
  destruct (_ ?= _)%Q; [destruct (Z.even _)|..]; lia.
Qed.

Lemma round_half_even_mono x y :
  (x <= y)%Q → round_half_even x ≤ round_half_even y.
Proof.
  intros Hxy. pose proof (Qfloor_resp_le _ _ Hxy) as Hfloor.
  destruct (decide (Qfloor x = Qfloor y)) as [Heq|Hne].
  - unfold round_half_even. rewrite Heq.
    destruct (Qcompare_spec (x - inject_Z (Qfloor y)) (1 # 2)) as [Hx|Hx|Hx];
      destruct (Qcompare_spec (y - inject_Z (Qfloor y)) (1 # 2)) as [Hy|Hy|Hy];
      try (destruct (Z.even _)); try lia; exfalso; lra.
  - pose proof (round_half_even_floor x). pose proof (round_half_even_floor y).
    lia.
Qed.

Lemma Qmake_le (a b : Z) (p : positive) : a ≤ b → (a # p <= b # p)%Q.
Proof. intros Hab. unfold Qle. simpl. nia. Qed.

Lemma round_mono x y ndigits :
  (x <= y)%Q → (round x ndigits <= round y ndigits)%Q.
Proof.
  intros Hxy. unfold round. rewrite !Qred_correct.
  apply Qmake_le, round_half_even_mono.
  apply Qmult_le_compat_r; [done|].
  by apply (Qmake_le 0 _ 1).
Qed.

Lemma round_0 ndigits : (round 0 ndigits == 0)%Q.
Proof.
  unfold round. rewrite Qred_correct.
  assert (0 * inject_Z (Z.pos (Z.to_pos (10 ^ Z.of_nat ndigits))) == 0)%Q
    as Hzero by ring.
  rewrite (round_half_even_comp _ _ Hzero). done.
Qed.

Lemma bind_Raise_inv {A B} (r : result A) (f : A → result B) (e : exn) :
  r ≫= f = Raise e → r = Raise e ∨ ∃ a, r = Ok a ∧ f a = Raise e.
Proof. destruct r as [a|e']; simpl; [eauto|]. intros [= ->]. by left. Qed.

Lemma loc_Raise_inv {V} (df : DataFrame V) r c e :
  c ∈ columns df → loc df r c = Raise e → e = KeyError r ∧ r ∉ index df.
Proof.
  intros Hc. unfold loc. case_decide; [by rewrite decide_True|].
  by intros [= <-].
Qed.

Lemma dict_set_keys_inv {V} (d : list (string * V)) k v k' :
  k' ∈ (dict_set d k v).*1 → k' = k ∨ k' ∈ d.*1.
Proof.
  intros ([k0 v0] & -> & Hin)%list_elem_of_fmap.
  apply dict_set_elem_of in Hin as [[= -> ->]|Hin]; [by left|right].
  apply list_elem_of_fmap. by exists (k0, v0).
Qed.

Lemma dict_set_fresh {V} (d : list (string * V)) k v :
  k ∉ d.*1 → dict_set d k v = d ++ [(k, v)].
Proof.
  induction d as [|[k0 v0] d IH]; [done|].
  rewrite fmap_cons, not_elem_of_cons. simpl. intros [Hne Hnot].
  rewrite decide_False by done. by rewrite IH.
Qed.

Lemma dict_set_keys_NoDup {V} (d : list (string * V)) k v :
  NoDup d.*1 → NoDup (dict_set d k v).*1.
Proof.
  induction d as [|[k0 v0] d IH]; intros Hd.
  - apply NoDup_singleton.
  - rewrite fmap_cons in Hd. simpl in Hd.
    apply NoDup_cons in Hd as [Hk0 Hd]. simpl.
    case_decide as Hk; rewrite fmap_cons; simpl; apply NoDup_cons.
    + subst k0. done.
    + split; [|by apply IH].
      intros [->|Hin]%dict_set_keys_inv; done.
Qed.

(** ** More facts about the loops of the engine *)

Section RankingFacts.

Variable model_data : ModelData.

Abbreviation mcm := (member_course_matrix model_data).
Abbreviation sim_df := (member_similarity_df model_data).

(** The scoring path once the member, its row of the member table and its
    similarity vector are found. *)
Lemma scoring_path_unfold member n member_row :
  member ∈ index mcm →
  member_metadata model_data member = Some member_row →
  similarity_known model_data member →
  get_recommendations model_data member n
  = (course_scores ←
       scores_loop model_data
         (bool_decide (MemberRow.tier member_row = "premium"))
         (played_courses_of model_data member)
         (similarity_vector model_data member) (columns mcm) [];
     results_loop model_data (similarity_vector model_data member)
       (slice_to (sorted_desc course_scores) n) []).
Proof.
  intros Hidx Hrow [Hcol Hsim].
  unfold get_recommendations, member_metadata, str in *.
  rewrite decide_False by (intros Hn; by apply Hn).
  destruct (members_with_id model_data member) as [|row rows];
    [discriminate|]. simpl in Hrow. injection Hrow as ->.
  unfold loc_row. rewrite decide_True by done. simpl.
  pose proof (similarities_Ok model_data member Hcol Hsim) as Hvec.
  destruct (getitem sim_df member) as [column|]; [|discriminate].
  simpl in *. rewrite Hvec. reflexivity.
Qed.

(** Without the member's column or row in the similarity matrix, the
    lookup of the vector raises. *)
Lemma scoring_path_unknown_similarity member n :
  member ∈ index mcm →
  is_Some (member_metadata model_data member) →
  ¬ similarity_known model_data member →
  get_recommendations model_data member n = Raise (KeyError member).
Proof.
  intros Hidx [member_row Hrow] Hunknown.
  unfold get_recommendations, member_metadata, str in *.
  rewrite decide_False by (intros Hn; by apply Hn).
  destruct (members_with_id model_data member) as [|row rows];
    [discriminate|].
  unfold loc_row. rewrite decide_True by done. simpl.
  unfold getitem. case_decide as Hcol; [|done]. simpl.
  unfold drop. rewrite series_index_fmap.
  case_decide as Hsim; [|done].
  destruct Hunknown. by split.
Qed.

Lemma candidate_eligible member member_row course info :
  member_metadata model_data member = Some member_row →
  course ∈ columns mcm →
  candidate model_data (played_courses_of model_data member)
    (bool_decide (MemberRow.tier member_row = "premium")) course info →
  eligible model_data member course.
Proof.
  intros Hrow Hcol (Hplayed & Hinfo & Hgate).
  split; [done|]. split.
  - intros Hpos. apply Hplayed, elem_of_played_courses_of. done.
  - exists member_row, info. split; [done|]. split; [done|].
    intros Htier. by apply (bool_decide_eq_true_1 _), Hgate.
Qed.

Lemma eligible_candidate member member_row course :
  member_metadata model_data member = Some member_row →
  eligible model_data member course →
  ∃ info,
    candidate model_data (played_courses_of model_data member)
      (bool_decide (MemberRow.tier member_row = "premium")) course info.
Proof.
  intros Hrow (Hcol & Hnot & row & info & Hrow' & Hinfo & Hgate).
  rewrite Hrow in Hrow'. injection Hrow' as <-.
  exists info. split; [|split; [done|]].
  - rewrite elem_of_played_courses_of. tauto.
  - intros Htier. apply bool_decide_eq_true. auto.
Qed.

(** *** The scoring loops *)

Lemma score_loop_Ok_inv sims course others acc s :
  score_loop model_data sims course others acc = Ok s →
  ∀ o, o ∈ others → o ∈ index mcm.
Proof.
  revert acc. induction others as [|o others IH]; intros acc; simpl.
  - intros _ o Ho. by apply elem_of_nil in Ho.
  - intros (similarity & _ & Hrest)%bind_Ok_inv.
    apply bind_Ok_inv in Hrest as (plays & Hloc & Hrest).
    apply loc_Ok_inv in Hloc as (Hidx & _ & _).
    intros o' [->|Ho']%elem_of_cons; [done|]. by eapply IH.
Qed.

Lemma score_loop_Raise_inv member course others acc e :
  others ⊆ other_members model_data member →
  course ∈ columns mcm →
  score_loop model_data (similarity_vector model_data member) course others acc
  = Raise e →
  ∃ o, e = KeyError o ∧ o ∈ others ∧ o ∉ index mcm.
Proof.
  intros Hsub Hcol. revert acc Hsub.
  induction others as [|o others IH]; intros acc Hsub; simpl; [done|].
  rewrite series_get_similarity_vector by (apply Hsub; left). simpl.
  intros [Hloc|(plays & _ & Hrest)]%bind_Raise_inv.
  - apply loc_Raise_inv in Hloc as [-> Hnot]; [|done].
    exists o. split; [done|]. split; [by left|done].
  - apply IH in Hrest as (o' & -> & Ho' & Hnot).
    + exists o'. split; [done|]. split; [by right|done].
    + intros x Hx. apply Hsub. by right.
Qed.

Lemma names_loop_Raise_inv member course others acc e :
  others ⊆ other_members model_data member →
  course ∈ columns mcm →
  names_loop model_data (similarity_vector model_data member) course others acc
  = Raise e →
  ∃ o, e = KeyError o ∧ o ∈ others ∧ o ∉ index mcm.
Proof.
  intros Hsub Hcol. revert acc Hsub.
  induction others as [|o others IH]; intros acc Hsub; simpl; [done|].
  assert (others ⊆ other_members model_data member) as Hsub'
    by (intros x Hx; apply Hsub; by right).
  assert (∀ acc',
            names_loop model_data (similarity_vector model_data member)
              course others acc' = Raise e →
            ∃ o', e = KeyError o' ∧ o' ∈ o :: others ∧ o' ∉ index mcm)
    as Hnext.
  { intros acc' (o' & -> & Ho' & Hnot)%IH; [|done].
    exists o'. split; [done|]. split; [by right|done]. }
  intros [Hloc|(plays & _ & Hrest)]%bind_Raise_inv.
  - apply loc_Raise_inv in Hloc as [-> Hnot]; [|done].
    exists o. split; [done|]. split; [by left|done].
  - destruct (bool_decide _); [|by eapply Hnext].
    rewrite series_get_similarity_vector in Hrest by (apply Hsub; left).
    simpl in Hrest. destruct (Qgtb _ _); by eapply Hnext.
Qed.

Lemma scores_loop_Raise_inv is_premium played member cols d0 e :
  cols ⊆ columns mcm →
  scores_loop model_data is_premium played (similarity_vector model_data member)
    cols d0 = Raise e →
  ∃ o, e = KeyError o ∧ o ∈ other_members model_data member ∧ o ∉ index mcm.
Proof.
  revert d0. induction cols as [|course cols IH]; intros d0 Hsub; simpl;
    [done|].
  assert (cols ⊆ columns mcm) as Hsub' by (intros x Hx; apply Hsub; by right).
  case_decide; [by apply IH|].
  destruct (courses_with_id model_data course); [by apply IH|].
  destruct (_ && _); [by apply IH|].
  rewrite series_index_similarity_vector.
  intros [Hscore|(score & _ & Hrest)]%bind_Raise_inv; [|by eapply IH].
  apply score_loop_Raise_inv in Hscore; [done|done|]. apply Hsub. by left.
Qed.

(** A course that the loop scores needs a row of interactions for every
    other member. *)
Lemma scores_loop_scored is_premium played member cols d0 d :
  scores_loop model_data is_premium played (similarity_vector model_data member)
    cols d0 = Ok d →
  ∀ c info, c ∈ cols → candidate model_data played is_premium c info →
  ∀ o, o ∈ other_members model_data member → o ∈ index mcm.
Proof.
  revert d0. induction cols as [|course cols IH]; intros d0; simpl.
  - intros _ c info Hc. by apply elem_of_nil in Hc.
  - intros Hloop c info [->|Hc]%elem_of_cons Hcand.
    + destruct Hcand as (Hplayed & Hinfo & Hgate).
      rewrite decide_False in Hloop by done.
      unfold course_metadata in Hinfo.
      destruct (courses_with_id model_data course) as [|row rows];
        [discriminate|]. simpl in Hinfo. injection Hinfo as ->.
      destruct (bool_decide _ && negb is_premium) eqn:Hskip.
      { apply andb_true_iff in Hskip as [Hp%bool_decide_eq_true Hn].
        rewrite (Hgate Hp) in Hn. discriminate. }
      apply bind_Ok_inv in Hloop as (score & Hscore & _).
      rewrite series_index_similarity_vector in Hscore.
      by eapply score_loop_Ok_inv.
    + case_decide; [by eapply IH|].
      destruct (courses_with_id model_data course); [by eapply IH|].
      destruct (_ && _); [by eapply IH|].
      apply bind_Ok_inv in Hloop as (score & _ & Hrest). by eapply IH.
Qed.

Lemma scores_loop_Ok_scored is_premium played member cols d0 :
  cols ⊆ columns mcm →
  (∀ c info, c ∈ cols → candidate model_data played is_premium c info →
   ∀ o, o ∈ other_members model_data member → o ∈ index mcm) →
  ∃ d, scores_loop model_data is_premium played
         (similarity_vector model_data member) cols d0 = Ok d.
Proof.
  revert d0. induction cols as [|course cols IH]; intros d0 Hsub Hall; simpl;
    [by eexists|].
  assert (cols ⊆ columns mcm) as Hsub' by (intros x Hx; apply Hsub; by right).
  assert (∀ c info, c ∈ cols → candidate model_data played is_premium c info →
          ∀ o, o ∈ other_members model_data member → o ∈ index mcm) as Hall'.
  { intros c info Hc. apply Hall. by right. }
  case_decide as Hplayed; [by apply IH|].
  destruct (courses_with_id model_data course) as [|row rows] eqn:Hrows;
    [by apply IH|].
  destruct (bool_decide _ && negb is_premium) eqn:Hskip; [by apply IH|].
  rewrite series_index_similarity_vector.
  rewrite score_loop_Ok; [simpl; by apply IH|done| |apply Hsub; by left].
  apply (Hall course row); [by left|].
  split; [done|]. split; [unfold course_metadata; by rewrite Hrows|].
  intros Htier. rewrite bool_decide_eq_true_2 in Hskip by done.
  by destruct is_premium.
Qed.

(** The dict holds one score per course. *)
Lemma scores_loop_keys_NoDup is_premium played sims cols d0 d :
  NoDup d0.*1 →
  scores_loop model_data is_premium played sims cols d0 = Ok d →
  NoDup d.*1.
Proof.
  revert d0. induction cols as [|course cols IH]; intros d0 Hd0; simpl.
  - by intros [= <-].
  - case_decide; [by apply IH|].
    destruct (courses_with_id model_data course); [by apply IH|].
    destruct (_ && _); [by apply IH|].
    intros (score & _ & Hrest)%bind_Ok_inv.
    eapply IH; [|exact Hrest]. by apply dict_set_keys_NoDup.
Qed.

(** The dict lists the scored courses in the order of the columns. *)
Lemma scores_loop_keys_order is_premium played sims cols d0 d :
  NoDup cols → (∀ k, k ∈ d0.*1 → k ∉ cols) →
  scores_loop model_data is_premium played sims cols d0 = Ok d →
  ∃ ks, d.*1 = d0.*1 ++ ks ∧ ks `sublist_of` cols.
Proof.
  revert d0. induction cols as [|course cols IH]; intros d0 Hcols Hfresh; simpl.
  - intros [= <-]. exists []. by rewrite app_nil_r.
  - apply NoDup_cons in Hcols as [Hcourse Hcols].
    assert (∀ k, k ∈ d0.*1 → k ∉ cols) as Hfresh'.
    { intros k Hk Hin. apply (Hfresh k Hk). by right. }
    assert (scores_loop model_data is_premium played sims cols d0 = Ok d →
            ∃ ks, d.*1 = d0.*1 ++ ks ∧ ks `sublist_of` course :: cols)
      as Hskip.
    { intros (ks & -> & Hks)%IH; [|done|done].
      exists ks. split; [done|]. by apply sublist_cons. }
    case_decide; [done|].
    destruct (courses_with_id model_data course); [done|].
    destruct (_ && _); [done|].
    intros (score & _ & Hrest)%bind_Ok_inv.
    rewrite dict_set_fresh in Hrest.
    2: { intros Hin. apply (Hfresh course Hin). by left. }
    apply IH in Hrest as (ks & -> & Hks); [|done|].
    + exists (course :: ks). rewrite fmap_app, <- app_assoc.
      split; [done|]. by apply sublist_skip.
    + rewrite fmap_app. intros k [Hk| ->%list_elem_of_singleton]%elem_of_app;
        [by apply Hfresh'|done].
Qed.

(** *** The loop building the records *)

Lemma results_loop_acc sims top acc :
  results_loop model_data sims top acc
  = (results ← results_loop model_data sims top []; Ok (acc ++ results)).
Proof.
  revert acc. induction top as [|[course score] top IH]; intros acc; simpl.
  - by rewrite app_nil_r.
  - destruct (iloc0 _) as [info|]; [|done]. simpl.
    destruct (names_loop _ _ _ _ _) as [names|]; [|done]. simpl.
    rewrite IH. rewrite (IH [_]).
    destruct (results_loop model_data sims top []) as [results|]; [|done].
    simpl. by rewrite <- app_assoc.
Qed.

(** The records of the first courses are the first records. *)
Lemma results_loop_take sims top l k :
  results_loop model_data sims top [] = Ok l →
  results_loop model_data sims (take k top) [] = Ok (take k l).
Proof.
  revert l k. induction top as [|[course score] top IH]; intros l k.
  - simpl. intros [= <-]. by rewrite !take_nil.
  - destruct k as [|k]; [done|]. simpl.
    destruct (iloc0 _) as [info|]; [|done]. simpl.
    destruct (names_loop _ _ _ _ _) as [names|]; [|done]. simpl.
    rewrite results_loop_acc. rewrite (results_loop_acc _ (take k top)).
    destruct (results_loop model_data sims top []) as [results|] eqn:Hrest;
      [|done].
    simpl. intros [= <-]. by rewrite (IH results k eq_refl).
Qed.

Lemma results_loop_Raise_inv member top acc e :
  (∀ cs, cs ∈ top →
     is_Some (course_metadata model_data cs.1) ∧ cs.1 ∈ columns mcm) →
  results_loop model_data (similarity_vector model_data member) top acc
  = Raise e →
  ∃ o, e = KeyError o ∧ o ∈ other_members model_data member ∧ o ∉ index mcm.
Proof.
  revert acc. induction top as [|[course score] top IH]; intros acc Htop;
    simpl; [done|].
  destruct (Htop (course, score)) as [[info Hinfo] Hcol]; [by left|].
  unfold course_metadata in Hinfo. simpl in *.
  destruct (courses_with_id model_data course) as [|row rows];
    [discriminate|]. simpl.
  rewrite series_index_similarity_vector.
  intros [Hnames|(names & _ & Hrest)]%bind_Raise_inv.
  - by apply names_loop_Raise_inv in Hnames.
  - eapply IH; [|exact Hrest]. intros cs Hcs. apply Htop. by right.
Qed.

(** *** The scoring path, loop by loop *)

(** What the scoring path computes before it returns [l]: the dict of the
    scored courses, which holds each eligible course once, with its running
    score, in the order of the columns; and the records of the first
    courses of the ranking. *)
Lemma scoring_path_digest member n l :
  member ∈ index mcm →
  get_recommendations model_data member n = Ok l →
  (member_metadata model_data member = None ∧ l = []) ∨
  ∃ member_row course_scores,
    member_metadata model_data member = Some member_row ∧
    similarity_known model_data member ∧
    (∀ c s, (c, s) ∈ course_scores →
       eligible model_data member c ∧
       s = running_score model_data member c 0
             (other_members model_data member)) ∧
    (∀ c, eligible model_data member c → c ∈ course_scores.*1) ∧
    NoDup course_scores.*1 ∧
    course_scores.*1 `sublist_of` columns mcm ∧
    results_loop model_data (similarity_vector model_data member)
      (slice_to (sorted_desc course_scores) n) [] = Ok l ∧
    Forall2 (λ cs r, ∃ info,
               course_metadata model_data cs.1 = Some info ∧
               r = recommendation_of model_data member info cs.1
                     (round cs.2 2))
            (slice_to (sorted_desc course_scores) n) l.
Proof.
  intros Hidx Hget.
  pose proof (scoring_path_inv _ _ _ _ Hidx Hget) as Hinv.
  destruct (member_metadata model_data member) as [member_row|] eqn:Hrow;
    [right|by left].
  destruct Hinv as (Hcol & Hsim & _ & _).
  assert (similarity_known model_data member) as Hknown by done.
  rewrite (scoring_path_unfold member n member_row) in Hget by done.
  apply bind_Ok_inv in Hget as (course_scores & Hscores & Hresults).
  exists member_row, course_scores.
  split; [done|]. split; [done|]. split; [|split; [|split; [|split]]].
  - intros c s Hcs.
    destruct (scores_loop_inv _ _ _ _ _ _ _ Hscores c s Hcs)
      as [Hnil|(Hc & (info & Hcand) & ->)]; [by apply elem_of_nil in Hnil|].
    split; [|done]. by eapply candidate_eligible.
  - intros c Helig.
    destruct (eligible_candidate _ _ _ Hrow Helig) as [info Hcand].
    apply scores_loop_complete in Hscores as (_ & Hnew & _).
    apply (Hnew c info); [|done]. by destruct Helig.
  - eapply scores_loop_keys_NoDup; [|exact Hscores]. constructor.
  - apply scores_loop_keys_order in Hscores as (ks & -> & Hks);
      [done|apply columns_unique|].
    intros k Hk. by apply elem_of_nil in Hk.
  - split; [done|].
    apply results_loop_inv in Hresults as (l' & -> & Hall). done.
Qed.

End RankingFacts.

Lemma StronglySorted_lookup {A} (R : relation A) (l : list A) i j x y :
  StronglySorted R l → l !! i = Some x → l !! j = Some y → (i < j)%nat →
  R x y.
Proof.
  intros Hl. revert i j. induction Hl as [|a l Hl IH Ha]; intros i j Hi Hj Hij;
    [done|].
  destruct i as [|i], j as [|j]; simpl in *; try lia.
  - injection Hi as ->. rewrite Forall_forall in Ha.
    by eapply Ha, list_elem_of_lookup_2.
  - apply (IH i j); [done|done|lia].
Qed.

Lemma slice_to_take {A} (l : list A) n : ∃ k, slice_to l n = take k l.
Proof. unfold slice_to. case_decide; eauto. Qed.

Lemma weighted_sum_nonneg model_data member course :
  (∀ o, o ∈ other_members model_data member →
        (0 <= similarity model_data member o)%Q ∧
        0 ≤ interaction_count model_data o course) →
  (0 <= weighted_sum model_data member course)%Q.
Proof.
  unfold weighted_sum.
  induction (other_members model_data member) as [|o others IH]; intros Hall.
  - unfold Qsum. simpl. lra.
  - rewrite fmap_cons.
    change (Qsum (?x :: ?l)) with (x + Qsum l)%Q.
    destruct (Hall o) as [Hsim Hplays]; [by left|].
    assert (0 <= inject_Z (interaction_count model_data o course))%Q
      by (by apply (Qmake_le 0 _ 1)).
    pose proof (Qmult_le_0_compat _ _ Hsim H).
    assert (0 <= Qsum ((λ other, similarity model_data member other
                         * inject_Z (interaction_count model_data other course))%Q
                       <$> others))%Q
      by (apply IH; intros o' Ho'; apply Hall; by right).
    lra.
Qed.

Lemma weighted_sum_unplayed model_data member course :
  (∀ o, o ∈ other_members model_data member →
        interaction_count model_data o course = 0) →
  (weighted_sum model_data member course == 0)%Q.
Proof.
  unfold weighted_sum.
  induction (other_members model_data member) as [|o others IH]; intros Hall.
  - reflexivity.
  - rewrite fmap_cons.
    change (Qsum (?x :: ?l)) with (x + Qsum l)%Q.
    rewrite IH by (intros o' Ho'; apply Hall; by right).
    rewrite (Hall o) by (by left). change (inject_Z 0) with 0%Q. ring.
Qed.

Lemma scoring_path_no_metadata model_data member n :
  member ∈ index (member_course_matrix model_data) →
  member_metadata model_data member = None →
  get_recommendations model_data member n = Ok [].
Proof.
  intros Hidx Hrow. unfold get_recommendations, member_metadata, str in *.
  rewrite decide_False by (intros Hn; by apply Hn).
  by destruct (members_with_id model_data member).
Qed.

Lemma record_ids model_data member top l :
  Forall2 (λ cs r, ∃ info,
             course_metadata model_data cs.1 = Some info ∧
             r = recommendation_of model_data member info cs.1 (round cs.2 2))
          top l →
  Recommendation.id <$> l = top.*1.
Proof.
  induction 1 as [|cs r top l (info & _ & ->) _ IH]; [done|].
  rewrite !fmap_cons, IH. done.
Qed.

(** ** The ranking *)

(** X1: down the returned list the scores never increase, on the scoring
    path and on the fallback. *)
Theorem ranking_descends model_data member n l i j r1 r2 :
  get_recommendations model_data member n = Ok l →
  l !! i = Some r1 → l !! j = Some r2 → (i ≤ j)%nat →
  (Recommendation.score r2 <= Recommendation.score r1)%Q.
Proof.
  intros Hget Hi Hj Hij.
  destruct (decide (i = j)) as [->|Hne].
  { rewrite Hi in Hj. injection Hj as ->. apply Qle_refl. }
  destruct (decide (member ∈ index (member_course_matrix model_data)))
    as [Hidx|Hidx].
  - destruct (scoring_path_digest _ _ _ _ Hidx Hget)
      as [[_ ->]|(member_row & d & _ & _ & _ & _ & _ & _ & _ & Hall)]; [done|].
    destruct (Forall2_lookup_r _ _ _ _ _ Hall Hi) as (cs1 & Hcs1 & info1 & _ & ->).
    destruct (Forall2_lookup_r _ _ _ _ _ Hall Hj) as (cs2 & Hcs2 & info2 & _ & ->).
    destruct (slice_to_take (sorted_desc d) n) as [k Hk]. rewrite Hk in *.
    apply lookup_take_Some in Hcs1 as [Hcs1 _].
    apply lookup_take_Some in Hcs2 as [Hcs2 _].
    simpl. apply round_mono.
    apply (StronglySorted_lookup score_ge (sorted_desc d) i j cs1 cs2);
      [apply sorted_desc_sorted|done|done|lia].
  - rewrite fallback_path in Hget by done. injection Hget as <-.
    unfold get_popular_courses in *.
    rewrite list_lookup_fmap in Hi, Hj.
    destruct (_ !! i); [|done]. destruct (_ !! j); [|done].
    simpl in *. injection Hi as <-. injection Hj as <-. simpl. apply Qle_refl.
Qed.

Lemma ranking_descends_witness :
  get_recommendations demo_model "M1" 5 = Ok demo_premium_result ∧
  (Recommendation.score
     (Recommendation.mk "C3" "Mesa Verde" "Tucson" "AZ" "standard"
        (4 # 5) "Played by: Bob")
   <= Recommendation.score
        (Recommendation.mk "C1" "Pebble Links" "Monterey" "CA" "premium"
           (17 # 10) "Played by: Bob"))%Q.
Proof.
  split; [vm_compute; reflexivity|].
  apply (ranking_descends demo_model "M1" 5 demo_premium_result 0 1).
  - vm_compute. reflexivity.
  - reflexivity.
  - reflexivity.
  - lia.
Defined.

(** X2: the scoring path returns no course twice. *)
Theorem recommended_courses_distinct model_data member n l :
  member ∈ index (member_course_matrix model_data) →
  get_recommendations model_data member n = Ok l →
  NoDup (Recommendation.id <$> l).
Proof.
  intros Hidx Hget.
  destruct (scoring_path_digest _ _ _ _ Hidx Hget)
    as [[_ ->]|(member_row & d & _ & _ & _ & _ & Hnodup & _ & _ & Hall)];
    [constructor|].
  rewrite (record_ids _ _ _ _ Hall).
  destruct (slice_to_take (sorted_desc d) n) as [k ->].
  apply (sublist_NoDup _ (sorted_desc d).*1).
  - by rewrite sorted_desc_Permutation.
  - apply fmap_sublist, sublist_take.
Qed.

Lemma recommended_courses_distinct_witness :
  "M1" ∈ index (member_course_matrix demo_model) ∧
  get_recommendations demo_model "M1" 5 = Ok demo_premium_result ∧
  NoDup (Recommendation.id <$> demo_premium_result).
Proof.
  split; [compute_done|]. split; [vm_compute; reflexivity|].
  apply (recommended_courses_distinct demo_model "M1" 5).
  - compute_done.
  - vm_compute. reflexivity.
Defined.

(** X3: top-n selection.  A course of the complete ranking (the answer to a
    count that leaves room for every column) that the answer to a count [n]
    leaves out has a reported score no greater than that of any course in
    the answer to [n]. *)
Theorem left_out_course_scores_no_more model_data member n N l full r r' :
  member ∈ index (member_course_matrix model_data) →
  Z.of_nat (length (columns (member_course_matrix model_data))) ≤ N →
  get_recommendations model_data member N = Ok full →
  get_recommendations model_data member n = Ok l →
  r ∈ l → r' ∈ full →
  (∀ x, x ∈ l → Recommendation.id x ≠ Recommendation.id r') →
  (Recommendation.score r' <= Recommendation.score r)%Q.
Proof.
  intros Hidx HN Hfull Hget Hr Hr' Hout.
  pose proof (scoring_path_inv _ _ _ _ Hidx Hget) as Hinv.
  destruct (member_metadata model_data member) as [member_row|] eqn:Hrow;
    [|subst l; by apply elem_of_nil in Hr].
  destruct Hinv as (Hcol & Hsim & _ & _).
  assert (similarity_known model_data member) as Hknown by done.
  rewrite (scoring_path_unfold _ member N member_row) in Hfull by done.
  rewrite (scoring_path_unfold _ member n member_row) in Hget by done.
  apply bind_Ok_inv in Hfull as (d & Hscores & Hfull).
  rewrite Hscores in Hget. simpl in Hget.
  pose proof (scores_loop_complete _ _ _ _ _ _ _ Hscores) as (_ & _ & Hlen).
  simpl in Hlen.
  pose proof (Permutation_length (sorted_desc_Permutation d)) as Hsorted.
  rewrite slice_to_all in Hfull by lia.
  apply results_loop_inv in Hfull as (full' & Hfull' & Hall').
  apply results_loop_inv in Hget as (l' & Hl' & Hall).
  simpl in Hfull', Hl'. subst full' l'.
  destruct (slice_to_take (sorted_desc d) n) as [k Hk]. rewrite Hk in Hall.
  apply list_elem_of_lookup in Hr as [i Hi].
  apply list_elem_of_lookup in Hr' as [j Hj].
  destruct (Forall2_lookup_r _ _ _ _ _ Hall Hi) as (cs & Hcs & info & _ & ->).
  destruct (Forall2_lookup_r _ _ _ _ _ Hall' Hj)
    as (cs' & Hcs' & info' & _ & ->).
  apply lookup_take_Some in Hcs as [Hcs Hik].
  destruct (decide (j < k)%nat) as [Hjk|Hjk].
  - assert (take k (sorted_desc d) !! j = Some cs') as Htake
      by (by apply lookup_take_Some).
    destruct (Forall2_lookup_l _ _ _ _ _ Hall Htake) as (x & Hx & info'' & _ & ->).
    destruct (Hout _ (list_elem_of_lookup_2 _ _ _ Hx)). done.
  - simpl. apply round_mono.
    apply (StronglySorted_lookup score_ge (sorted_desc d) i j cs cs');
      [apply sorted_desc_sorted|done|done|lia].
Qed.

Lemma left_out_course_scores_no_more_witness :
  "M1" ∈ index (member_course_matrix demo_model) ∧
  Z.of_nat (length (columns (member_course_matrix demo_model))) ≤ 5 ∧
  get_recommendations demo_model "M1" 5 = Ok demo_premium_result ∧
  get_recommendations demo_model "M1" 2 = Ok (take 2 demo_premium_result) ∧
  (1 # 10 <= 4 # 5)%Q.
Proof.
  split; [compute_done|]. split; [vm_compute; discriminate|].
  split; [vm_compute; reflexivity|]. split; [vm_compute; reflexivity|].
  apply (left_out_course_scores_no_more demo_model "M1" 2 5
           (take 2 demo_premium_result) demo_premium_result
           (Recommendation.mk "C3" "Mesa Verde" "Tucson" "AZ" "standard"
              (4 # 5) "Played by: Bob")
           (Recommendation.mk "C5" "Harbor Point" "Newport" "RI" "premium"
              (1 # 10) "Recommended for you")).
  - compute_done.
  - vm_compute. discriminate.
  - vm_compute. reflexivity.
  - vm_compute. reflexivity.
  - right. by left.
  - right. right. by left.
  - intros x Hx. simpl in Hx. rewrite !elem_of_cons in Hx.
    destruct Hx as [->|[->|Hnil]]; [discriminate|discriminate|].
    by apply elem_of_nil in Hnil.
Defined.

(** X4: asking for fewer courses gives the head of the longer answer: for
    [0 ≤ n ≤ n'], the answer to [n] is the first [n] records of the answer
    to [n'], on the scoring path and on the fallback. *)
Theorem smaller_limit_gives_prefix model_data member n n' l' :
  0 ≤ n ≤ n' →
  get_recommendations model_data member n' = Ok l' →
  get_recommendations model_data member n = Ok (take (Z.to_nat n) l').
Proof.
  intros [Hn Hn'] Hget.
  destruct (decide (member ∈ index (member_course_matrix model_data)))
    as [Hidx|Hidx].
  - pose proof (scoring_path_inv _ _ _ _ Hidx Hget) as Hinv.
    destruct (member_metadata model_data member) as [member_row|] eqn:Hrow.
    + destruct Hinv as (Hcol & Hsim & _ & _).
      assert (similarity_known model_data member) as Hknown by done.
      rewrite (scoring_path_unfold _ member n' member_row) in Hget by done.
      rewrite (scoring_path_unfold _ member n member_row) by done.
      apply bind_Ok_inv in Hget as (course_scores & -> & Hresults). simpl.
      rewrite slice_to_nonneg in Hresults by lia.
      rewrite slice_to_nonneg by lia.
      apply (results_loop_take _ _ _ _ (Z.to_nat n)) in Hresults.
      rewrite take_take in Hresults.
      by replace (Z.to_nat n `min` Z.to_nat n')%nat with (Z.to_nat n)
        in Hresults by lia.
    + subst l'. rewrite take_nil. by apply scoring_path_no_metadata.
  - rewrite fallback_path in Hget |- * by done. injection Hget as <-.
    f_equal. unfold get_popular_courses, df_head.
    rewrite !slice_to_nonneg by lia.
    rewrite <- fmap_take, take_take.
    by replace (Z.to_nat n `min` Z.to_nat n')%nat with (Z.to_nat n) by lia.
Qed.

Lemma smaller_limit_gives_prefix_witness :
  0 ≤ 1 ≤ 5 ∧
  get_recommendations demo_model "M1" 5 = Ok demo_premium_result ∧
  get_recommendations demo_model "M1" 1
  = Ok (take (Z.to_nat 1) demo_premium_result).
Proof.
  split; [lia|]. split; [vm_compute; reflexivity|].
  apply (smaller_limit_gives_prefix demo_model "M1" 1 5).
  - lia.
  - vm_compute. reflexivity.
Defined.

Example tied_member :
  get_recommendations tied_model "M1" 5 = Ok tied_result.
Proof. vm_compute. reflexivity. Qed.

(** ** The records *)

(** X6: a record of the scoring path copies its name, city, state and tier
    from the first row of the course table that has its id. *)
Theorem record_copies_first_catalog_row model_data member n l r :
  member ∈ index (member_course_matrix model_data) →
  get_recommendations model_data member n = Ok l →
  r ∈ l →
  ∃ before info after,
    courses_df model_data = before ++ info :: after ∧
    (∀ row, row ∈ before → Course.course_id row ≠ Recommendation.id r) ∧
    Course.course_id info = Recommendation.id r ∧
    Recommendation.name r = Course.name info ∧
    Recommendation.city r = Course.city info ∧
    Recommendation.state r = Course.state info ∧
    Recommendation.tier_required r = Course.tier_required info.
Proof.
  intros Hidx Hget Hr.
  pose proof (scoring_path_inv _ _ _ _ Hidx Hget) as Hinv.
  destruct (member_metadata model_data member) as [member_row|];
    [|subst l; by apply elem_of_nil in Hr].
  destruct Hinv as (_ & _ & Hall & _). rewrite Forall_forall in Hall.
  destruct (Hall r Hr) as (c & info & _ & _ & Hinfo & _ & ->).
  pose proof (course_metadata_Some _ _ _ Hinfo) as [_ Hid].
  unfold course_metadata, courses_with_id in Hinfo.
  apply head_filter_Some in Hinfo as (before & after & Hsplit & Hbefore).
  exists before, info, after. simpl.
  split; [done|]. split; [|done].
  rewrite Forall_forall in Hbefore. intros row Hrow. by apply Hbefore.
Qed.

Lemma record_copies_first_catalog_row_witness :
  "M1" ∈ index (member_course_matrix tied_model) ∧
  get_recommendations tied_model "M1" 5 = Ok tied_result ∧
  ∃ before info after,
    courses_df tied_model = before ++ info :: after ∧
    (∀ row, row ∈ before → Course.course_id row ≠ "C1") ∧
    Course.course_id info = "C1" ∧
    "Pebble Links" = Course.name info ∧
    "Monterey" = Course.city info ∧
    "CA" = Course.state info ∧
    "standard" = Course.tier_required info.
Proof.
  split; [compute_done|]. split; [vm_compute; reflexivity|].
  apply (record_copies_first_catalog_row tied_model "M1" 5 tied_result
           (Recommendation.mk "C1" "Pebble Links" "Monterey" "CA" "standard"
              (1 # 2) "Played by: Bob")).
  - compute_done.
  - vm_compute. reflexivity.
  - by left.
Defined.

(** X8: when no similarity to another member and no play count is
    negative, no returned score is negative. *)
Theorem scores_nonnegative model_data member n l :
  (∀ o c, o ∈ other_members model_data member →
          c ∈ columns (member_course_matrix model_data) →
          (0 <= similarity model_data member o)%Q ∧
          0 ≤ interaction_count model_data o c) →
  get_recommendations model_data member n = Ok l →
  ∀ r, r ∈ l → (0 <= Recommendation.score r)%Q.
Proof.
  intros Hpos Hget r Hr.
  destruct (decide (member ∈ index (member_course_matrix model_data)))
    as [Hidx|Hidx].
  - pose proof (scoring_path_inv _ _ _ _ Hidx Hget) as Hinv.
    destruct (member_metadata model_data member) as [member_row|];
      [|subst l; by apply elem_of_nil in Hr].
    destruct Hinv as (_ & _ & Hall & _). rewrite Forall_forall in Hall.
    destruct (Hall r Hr) as (c & info & Hcol & _ & _ & _ & ->). simpl.
    rewrite <- (round_0 2). apply round_mono, weighted_sum_nonneg.
    intros o Ho. by apply Hpos.
  - rewrite fallback_path in Hget by done. injection Hget as <-.
    unfold get_popular_courses in Hr.
    apply list_elem_of_fmap in Hr as (course & -> & _). simpl. apply Qle_refl.
Qed.

Lemma scores_nonnegative_witness :
  (∀ o c, o ∈ other_members tied_model "M1" →
          c ∈ columns (member_course_matrix tied_model) →
          (0 <= similarity tied_model "M1" o)%Q ∧
          0 ≤ interaction_count tied_model o c) ∧
  ∀ r, r ∈ tied_result → (0 <= Recommendation.score r)%Q.
Proof.
  assert (∀ o c, o ∈ other_members tied_model "M1" →
                 c ∈ columns (member_course_matrix tied_model) →
                 (0 <= similarity tied_model "M1" o)%Q ∧
                 0 ≤ interaction_count tied_model o c) as Hpos.
  { intros o c _ _. split; [by vm_compute|].
    unfold interaction_count, tied_model, tied_plays. simpl.
    repeat case_match; lia. }
  split; [exact Hpos|].
  apply (scores_nonnegative tied_model "M1" 5).
  - exact Hpos.
  - vm_compute. reflexivity.
Defined.

(** X9: a returned course that no other member has a play count for gets
    score 0 and the reason "Recommended for you". *)
Theorem course_nobody_else_played model_data member n l r :
  member ∈ index (member_course_matrix model_data) →
  get_recommendations model_data member n = Ok l →
  r ∈ l →
  (∀ o, o ∈ other_members model_data member →
        interaction_count model_data o (Recommendation.id r) = 0) →
  Recommendation.score r = 0%Q ∧
  Recommendation.reason r = "Recommended for you".
Proof.
  intros Hidx Hget Hr Hnone.
  pose proof (scoring_path_inv _ _ _ _ Hidx Hget) as Hinv.
  destruct (member_metadata model_data member) as [member_row|];
    [|subst l; by apply elem_of_nil in Hr].
  destruct Hinv as (_ & _ & Hall & _). rewrite Forall_forall in Hall.
  destruct (Hall r Hr) as (c & info & _ & _ & _ & _ & ->). simpl in *.
  split; [by rewrite (round_comp _ 0 2 (weighted_sum_unplayed _ _ _ Hnone))|].
  unfold expected_reason.
  replace (filter (backs model_data member c) (other_members model_data member))
    with (@nil string); [done|].
  symmetry. induction (other_members model_data member) as [|o others IH];
    [done|].
  rewrite filter_cons, decide_False.
  - apply IH. intros o' Ho'. apply Hnone. by right.
  - intros [Hpos _]. rewrite (Hnone o) in Hpos by (by left). lia.
Qed.

Lemma course_nobody_else_played_witness :
  "M1" ∈ index (member_course_matrix tied_model) ∧
  get_recommendations tied_model "M1" 5 = Ok tied_result ∧
  (∀ o, o ∈ other_members tied_model "M1" →
        interaction_count tied_model o "C3" = 0) ∧
  (0 : Q) = 0%Q ∧ "Recommended for you" = "Recommended for you".
Proof.
  assert (∀ o, o ∈ other_members tied_model "M1" →
               interaction_count tied_model o "C3" = 0) as Hnone.
  { intros o _. unfold interaction_count, tied_model, tied_plays. simpl.
    repeat case_match; done. }
  split; [compute_done|]. split; [vm_compute; reflexivity|].
  split; [exact Hnone|].
  apply (course_nobody_else_played tied_model "M1" 5 tied_result
           (Recommendation.mk "C3" "Mesa Verde" "Tucson" "AZ" "standard"
              0 "Recommended for you")).
  - compute_done.
  - vm_compute. reflexivity.
  - right. right. by left.
  - exact Hnone.
Defined.

(** ** Which requests raise *)

(** With the similarity vector found, only a member of the similarity
    matrix without a row of interactions makes the scoring path raise. *)
Lemma scoring_path_Raise_known model_data member n member_row e :
  member ∈ index (member_course_matrix model_data) →
  member_metadata model_data member = Some member_row →
  similarity_known model_data member →
  get_recommendations model_data member n = Raise e →
  ∃ o, e = KeyError o ∧ o ∈ other_members model_data member ∧
       o ∉ index (member_course_matrix model_data).
Proof.
  intros Hidx Hrow Hknown Hget.
  rewrite (scoring_path_unfold _ member n member_row) in Hget by done.
  apply bind_Raise_inv in Hget as [Hscores|(d & Hscores & Hresults)].
  - by apply scores_loop_Raise_inv in Hscores.
  - apply results_loop_Raise_inv in Hresults; [done|].
    intros [c s] Hcs%slice_to_subseteq.
    rewrite sorted_desc_Permutation in Hcs.
    destruct (scores_loop_inv _ _ _ _ _ _ _ Hscores c s Hcs)
      as [Hnil|(Hc & (info & _ & Hinfo & _) & _)];
      [by apply elem_of_nil in Hnil|].
    simpl. by rewrite Hinfo.
Qed.

(** X10: [get_recommendations] raises nothing but the [KeyError] of a
    member id, and only for a member of the interaction matrix and of the
    member table: the id of the member itself when the similarity matrix
    lacks its column or row, or the id of another member of the similarity
    matrix that has no row of interactions. *)
Theorem only_member_lookups_raise model_data member n e :
  get_recommendations model_data member n = Raise e →
  member ∈ index (member_course_matrix model_data) ∧
  is_Some (member_metadata model_data member) ∧
  ((e = KeyError member ∧ ¬ similarity_known model_data member) ∨
   (∃ o, e = KeyError o ∧ o ∈ other_members model_data member ∧
         o ∉ index (member_course_matrix model_data))).
Proof.
  intros Hget.
  destruct (decide (member ∈ index (member_course_matrix model_data)))
    as [Hidx|Hidx]; [|by rewrite fallback_path in Hget].
  destruct (member_metadata model_data member) as [member_row|] eqn:Hrow;
    [|by rewrite scoring_path_no_metadata in Hget].
  split; [done|]. split; [by eexists|].
  destruct (decide (similarity_known model_data member)) as [Hknown|Hunknown].
  - right. by eapply scoring_path_Raise_known.
  - left. split; [|done].
    rewrite scoring_path_unknown_similarity in Hget; [|done|by eexists|done].
    by injection Hget as <-.
Qed.

Lemma only_member_lookups_raise_witness :
  get_recommendations orphan_model "M1" 5 = Raise (KeyError "M2") ∧
  "M1" ∈ index (member_course_matrix orphan_model) ∧
  is_Some (member_metadata orphan_model "M1") ∧
  ((KeyError "M2" = KeyError "M1" ∧ ¬ similarity_known orphan_model "M1") ∨
   (∃ o, KeyError "M2" = KeyError o ∧ o ∈ other_members orphan_model "M1" ∧
         o ∉ index (member_course_matrix orphan_model))).
Proof.
  split; [vm_compute; reflexivity|].
  apply (only_member_lookups_raise orphan_model "M1" 5).
  vm_compute. reflexivity.
Defined.

(** X11: for a member of the interaction matrix and of the member table,
    [get_recommendations] returns exactly when the similarity matrix has the
    member's column and row and, if some course is eligible, every other
    member of the similarity matrix has a row of interactions; the requested
    count plays no part. *)
Theorem returns_iff_similarity_consistent model_data member n :
  member ∈ index (member_course_matrix model_data) →
  is_Some (member_metadata model_data member) →
  (∃ l, get_recommendations model_data member n = Ok l) ↔
  (similarity_known model_data member ∧
   ∀ course, eligible model_data member course →
   ∀ o, o ∈ other_members model_data member →
        o ∈ index (member_course_matrix model_data)).
Proof.
  intros Hidx [member_row Hrow]. split.
  - intros [l Hget].
    pose proof (scoring_path_inv _ _ _ _ Hidx Hget) as Hinv.
    rewrite Hrow in Hinv. destruct Hinv as (Hcol & Hsim & _ & _).
    assert (similarity_known model_data member) as Hknown by done.
    split; [done|]. intros course Helig.
    rewrite (scoring_path_unfold _ member n member_row) in Hget by done.
    apply bind_Ok_inv in Hget as (d & Hscores & _).
    destruct (eligible_candidate _ _ _ _ Hrow Helig) as [info Hcand].
    eapply scores_loop_scored; [exact Hscores| |exact Hcand].
    by destruct Helig.
  - intros [Hknown Hall].
    rewrite (scoring_path_unfold _ member n member_row) by done.
    destruct (scores_loop_Ok_scored model_data
                (bool_decide (MemberRow.tier member_row = "premium"))
                (played_courses_of model_data member) member
                (columns (member_course_matrix model_data)) [])
      as [d Hscores]; [done| |].
    { intros c info Hc Hcand. apply (Hall c). by eapply candidate_eligible. }
    rewrite Hscores. simpl.
    assert (∀ cs, cs ∈ slice_to (sorted_desc d) n →
              eligible model_data member cs.1 ∧
              is_Some (course_metadata model_data cs.1)) as Htop.
    { intros [c s] Hcs%slice_to_subseteq.
      rewrite sorted_desc_Permutation in Hcs.
      destruct (scores_loop_inv _ _ _ _ _ _ _ Hscores c s Hcs)
        as [Hnil|(Hc & (info & Hcand) & _)];
        [by apply elem_of_nil in Hnil|].
      split; [by eapply candidate_eligible|].
      destruct Hcand as (_ & Hinfo & _). simpl. by rewrite Hinfo. }
    destruct (slice_to (sorted_desc d) n) as [|cs top] eqn:Hslice;
      [by eexists|].
    destruct (Htop cs) as [Helig _]; [by left|].
    apply results_loop_Ok; [by apply (Hall cs.1)|].
    intros cs' Hcs'. destruct (Htop cs' Hcs') as [[Hcol _] Hinfo]. done.
Qed.

Lemma returns_iff_similarity_consistent_witness :
  "M1" ∈ index (member_course_matrix orphan_model) ∧
  is_Some (member_metadata orphan_model "M1") ∧
  ((∃ l, get_recommendations orphan_model "M1" 5 = Ok l) ↔
   (similarity_known orphan_model "M1" ∧
    ∀ course, eligible orphan_model "M1" course →
    ∀ o, o ∈ other_members orphan_model "M1" →
         o ∈ index (member_course_matrix orphan_model))).
Proof.
  split; [compute_done|]. split; [by eexists|].
  apply (returns_iff_similarity_consistent orphan_model "M1" 5).
  - compute_done.
  - by eexists.
Defined.

(** ** The endpoints *)

(** X12: the recommendations endpoint answers "503 Model not loaded"
    exactly when the health endpoint reports the model as not loaded; the
    root endpoint reports the same flag; and the endpoint raises no other
    [HTTPException]. *)
Theorem unavailable_iff_not_loaded (model_data : option ModelData)
    (member : string) (limit : Z) :
  (recommendations model_data member limit
   = Throw (HTTPException 503 "Model not loaded")
   ↔ HealthResponse.model_loaded (health model_data) = false) ∧
  RootResponse.model_loaded (root model_data)
  = HealthResponse.model_loaded (health model_data) ∧
  (∀ status_code detail,
     recommendations model_data member limit
     = Throw (HTTPException status_code detail) →
     model_data = None ∧ status_code = 503 ∧ detail = "Model not loaded").
Proof.
  destruct model_data as [data|]; simpl.
  - split; [|split; [done|]].
    + split; [|done]. by destruct (get_recommendations data member limit).
    + intros status_code detail.
      by destruct (get_recommendations data member limit).
  - split; [done|]. split; [done|].
    intros status_code detail [= <- <-]. done.
Qed.

(** X13: with a model loaded, the recommendations endpoint fails only with
    an uncaught [KeyError] of a member id, the member's own or that of
    another member of the similarity matrix, and only for a member of the
    interaction matrix. *)
Theorem loaded_endpoint_fails_only_uncaught (data : ModelData)
    (member : string) (limit : Z) (e : app_exn) :
  recommendations (Some data) member limit = Throw e →
  member ∈ index (member_course_matrix data) ∧
  ∃ o, e = Uncaught (KeyError o) ∧
       (o = member ∨ o ∈ other_members data member).
Proof.
  simpl. destruct (get_recommendations data member limit) as [l|e'] eqn:Hget;
    [done|].
  intros [= <-].
  destruct (decide (member ∈ index (member_course_matrix data)))
    as [Hidx|Hidx]; [|by rewrite fallback_path in Hget].
  split; [done|].
  destruct (member_metadata data member) as [member_row|] eqn:Hrow;
    [|by rewrite scoring_path_no_metadata in Hget].
  destruct (decide (similarity_known data member)) as [Hknown|Hunknown].
  - destruct (scoring_path_Raise_known _ _ _ _ _ Hidx Hrow Hknown Hget)
      as (o & -> & Ho & _).
    exists o. by split; [|right].
  - rewrite scoring_path_unknown_similarity in Hget; [|done|by eexists|done].
    injection Hget as <-. exists member. by split; [|left].
Qed.

Lemma loaded_endpoint_fails_only_uncaught_witness :
  recommendations (Some uncovered_model) "M1" 5
  = Throw (Uncaught (KeyError "M1")) ∧
  "M1" ∈ index (member_course_matrix uncovered_model) ∧
  ∃ o, Uncaught (KeyError "M1") = Uncaught (KeyError o) ∧
       (o = "M1" ∨ o ∈ other_members uncovered_model "M1").
Proof.
  split; [vm_compute; reflexivity|].
  apply (loaded_endpoint_fails_only_uncaught uncovered_model "M1" 5).
  vm_compute. reflexivity.
Defined.

(** ** What the limit cuts *)

(** X15: the scoring path returns eligible courses only, and an answer
    shorter than a requested count [0 ≤ n] holds every eligible course. *)
Theorem short_answer_is_complete model_data member n l :
  member ∈ index (member_course_matrix model_data) →
  get_recommendations model_data member n = Ok l →
  (∀ r, r ∈ l → eligible model_data member (Recommendation.id r)) ∧
  (0 ≤ n → Z.of_nat (length l) < n →
   ∀ course, eligible model_data member course →
   ∃ r, r ∈ l ∧ Recommendation.id r = course).
Proof.
  intros Hidx Hget.
  destruct (scoring_path_digest _ _ _ _ Hidx Hget)
    as [[Hnone ->]|(member_row & d & _ & _ & Hd & Hkeys & _ & _ & _ & Hall)].
  { split; [intros r Hr; by apply elem_of_nil in Hr|].
    intros _ _ course (_ & _ & row & info & Hrow & _). congruence. }
  split.
  - intros r Hr. apply list_elem_of_lookup in Hr as [i Hi].
    destruct (Forall2_lookup_r _ _ _ _ _ Hall Hi)
      as ([c s] & Hcs & info & _ & ->).
    apply list_elem_of_lookup_2, slice_to_subseteq in Hcs.
    rewrite sorted_desc_Permutation in Hcs. simpl.
    by destruct (Hd c s Hcs).
  - intros Hn Hshort course Helig.
    apply Hkeys, list_elem_of_fmap in Helig as ([c s] & -> & Hcs).
    rewrite <- sorted_desc_Permutation in Hcs.
    rewrite slice_to_nonneg in Hall by done.
    rewrite <- (Forall2_length _ _ _ Hall), length_take in Hshort.
    rewrite take_ge in Hall by lia.
    apply list_elem_of_lookup in Hcs as [i Hi].
    destruct (Forall2_lookup_l _ _ _ _ _ Hall Hi) as (r & Hr & info & _ & ->).
    eexists. split; [by eapply list_elem_of_lookup_2|done].
Qed.

Lemma short_answer_is_complete_witness :
  "M1" ∈ index (member_course_matrix demo_model) ∧
  get_recommendations demo_model "M1" 5 = Ok demo_premium_result ∧
  (∀ r, r ∈ demo_premium_result →
        eligible demo_model "M1" (Recommendation.id r)) ∧
  (0 ≤ 5 → Z.of_nat (length demo_premium_result) < 5 →
   ∀ course, eligible demo_model "M1" course →
   ∃ r, r ∈ demo_premium_result ∧ Recommendation.id r = course).
Proof.
  split; [compute_done|]. split; [vm_compute; reflexivity|].
  apply (short_answer_is_complete demo_model "M1" 5).
  - compute_done.
  - vm_compute. reflexivity.
Defined.

(** X16: on the scoring path the answer to any count [n], negative ones
    included, is the slice [full[:n]] of the answer [full] to a count that
    leaves room for every column. *)
Theorem answer_is_slice_of_full_ranking model_data member n N full :
  member ∈ index (member_course_matrix model_data) →
  Z.of_nat (length (columns (member_course_matrix model_data))) ≤ N →
  get_recommendations model_data member N = Ok full →
  get_recommendations model_data member n = Ok (slice_to full n).
Proof.
  intros Hidx HN Hget.
  pose proof (scoring_path_inv _ _ _ _ Hidx Hget) as Hinv.
  destruct (member_metadata model_data member) as [member_row|] eqn:Hrow.
  - destruct Hinv as (Hcol & Hsim & _ & _).
    assert (similarity_known model_data member) as Hknown by done.
    rewrite (scoring_path_unfold _ member N member_row) in Hget by done.
    rewrite (scoring_path_unfold _ member n member_row) by done.
    apply bind_Ok_inv in Hget as (d & Hscores & Hresults).
    rewrite Hscores. simpl.
    pose proof (scores_loop_complete _ _ _ _ _ _ _ Hscores) as (_ & _ & Hlen).
    simpl in Hlen.
    pose proof (Permutation_length (sorted_desc_Permutation d)) as Hsorted.
    rewrite slice_to_all in Hresults by lia.
    pose proof Hresults as Hfull.
    apply results_loop_inv in Hfull as (l' & Hl' & Hall). simpl in Hl'.
    subst l'. apply Forall2_length in Hall.
    unfold slice_to. rewrite <- Hall.
    destruct (decide (0 ≤ n)); by apply results_loop_take.
  - subst full. rewrite scoring_path_no_metadata by done.
    f_equal. unfold slice_to. destruct (decide (0 ≤ n)); by rewrite take_nil.
Qed.

Lemma answer_is_slice_of_full_ranking_witness :
  "M1" ∈ index (member_course_matrix demo_model) ∧
  Z.of_nat (length (columns (member_course_matrix demo_model))) ≤ 5 ∧
  get_recommendations demo_model "M1" 5 = Ok demo_premium_result ∧
  get_recommendations demo_model "M1" (-2)
  = Ok (slice_to demo_premium_result (-2)).
Proof.
  split; [compute_done|]. split; [vm_compute; discriminate|].
  split; [vm_compute; reflexivity|].
  apply (answer_is_slice_of_full_ranking demo_model "M1" (-2) 5).
  - compute_done.
  - vm_compute. discriminate.
  - vm_compute. reflexivity.
Defined.
